(** * The assessment backend (src/backend.js): session store, request
    handlers and the parsing of generated text.

    Conventions of the embedding.
    - A JavaScript string is a sequence of UTF-16 code units; the model is
      [string], one [ascii] per code unit, so it covers code units below 256.
    - A JavaScript number is a double.  The model has the doubles that are
      integers ([JNum n], with [n] the value), the two infinities and NaN;
      numbers with a fraction are not modelled.  Arithmetic rounds as the
      doubles do ([round_double]), and Number::toString is followed in its
      shortest-digits rule ([number_to_string]).
    - A field of a JSON request body is a [JsVal]: absent ([JUndefined]),
      null, a boolean, a number or a string.  Arrays and objects (always
      truthy, never a key of the session map) are not modelled.
    - [Date.now()] is an argument [now : Z] in milliseconds; [uuidv4()] is an
      argument [uuid : string]; the chat-completion call is an argument
      [gen], a function from the prompt and the token limit to its outcome.
    - A comparison [s >= k] of a string with a number goes through the
      runtime's StringToNumber; it is a parameter [string_ge] of the handlers.
    - A handler is a function from the session map to a response and the new
      session map; the session object shared through the map is updated by
      re-inserting it under its key.  A handler runs to completion: no other
      request and no cleanup comes between its [await] and what follows. *)

From Stdlib Require Import Ascii String ZArith.
From stdpp Require Import gmap strings list fin_maps pretty.

Local Open Scope string_scope.
Local Open Scope Z_scope.

(** * The program *)

(** ** Characters and strings *)

Definition LF : ascii := "010"%char.

Definition code (c : ascii) : nat := nat_of_ascii c.

(** WhiteSpace and LineTerminator code units below 256, the set removed by
    [String.prototype.trim]: TAB, LF, VT, FF, CR, SP, NBSP. *)
Definition is_js_space (c : ascii) : bool :=
  bool_decide (code c ∈ [9; 10; 11; 12; 13; 32; 160]%nat).

Definition is_digit (c : ascii) : bool :=
  bool_decide (48 ≤ code c ≤ 57)%nat.

(** The character class [[A-D]]. *)
Definition is_A_to_D (c : ascii) : bool :=
  bool_decide (65 ≤ code c ≤ 68)%nat.

(** Canonicalisation of the [i] flag for a pattern character in ASCII:
    lower-case ASCII letters map to upper case, nothing else changes (no code
    unit above 127 canonicalises to an ASCII one). *)
Definition to_upper (c : ascii) : ascii :=
  if bool_decide (97 ≤ code c ≤ 122)%nat then ascii_of_nat (code c - 32) else c.

Definition ascii_ci_eqb (p c : ascii) : bool :=
  bool_decide (to_upper p = to_upper c).

Fixpoint trim_start (s : string) : string :=
  match s with
  | String c s' => if is_js_space c then trim_start s' else s
  | EmptyString => EmptyString
  end.

Fixpoint trim_end (s : string) : string :=
  match s with
  | String c s' =>
      match trim_end s' with
      | EmptyString => if is_js_space c then EmptyString else String c EmptyString
      | kept => String c kept
      end
  | EmptyString => EmptyString
  end.

(** [s.trim()] *)
Definition trim (s : string) : string := trim_end (trim_start s).

(** [s.split('\n')]: never empty, [""] for the empty string. *)
Fixpoint split_lines (s : string) : list string :=
  match s with
  | EmptyString => [EmptyString]
  | String c s' =>
      if bool_decide (c = LF) then EmptyString :: split_lines s'
      else match split_lines s' with
           | l :: ls => String c l :: ls
           | [] => [String c EmptyString]
           end
  end.

(** [line => line.trim() !== ''] *)
Definition non_blank (line : string) : bool :=
  negb (String.eqb (trim line) "").

(** [xs.join(sep)] *)
Fixpoint join (sep : string) (xs : list string) : string :=
  match xs with
  | [] => ""
  | [x] => x
  | x :: rest => x +:+ sep +:+ join sep rest
  end.

(** A literal pattern matched at the start of [s] under the [i] flag; the
    result is what follows the match. *)
Fixpoint match_ci (pat s : string) : option string :=
  match pat, s with
  | EmptyString, _ => Some s
  | String p pat', String c s' =>
      if ascii_ci_eqb p c then match_ci pat' s' else None
  | String _ _, EmptyString => None
  end.

(** The same without the flag. *)
Fixpoint match_lit (pat s : string) : option string :=
  match pat, s with
  | EmptyString, _ => Some s
  | String p pat', String c s' =>
      if bool_decide (p = c) then match_lit pat' s' else None
  | String _ _, EmptyString => None
  end.

(** Greedy [\d*] at the start of [s]: the longest run of digits and the rest. *)
Fixpoint span_digits (s : string) : string * string :=
  match s with
  | String c s' =>
      if is_digit c then
        let '(ds, rest) := span_digits s' in (String c ds, rest)
      else (EmptyString, s)
  | EmptyString => (EmptyString, EmptyString)
  end.

(** [\d+] at the start of [s].  What follows in each pattern of the source
    starts with a non-digit (or is the end of the pattern), so giving back a
    digit never helps and the greedy run is the only candidate. *)
Definition match_digits (s : string) : option (string * string) :=
  let '(ds, rest) := span_digits s in
  if String.eqb ds "" then None else Some (ds, rest).

Definition digit_value (c : ascii) : Z := Z.of_nat (code c) - 48.

Fixpoint parse_digits (acc : Z) (s : string) : Z :=
  match s with
  | String c s' =>
      if is_digit c then parse_digits (10 * acc + digit_value c) s' else acc
  | EmptyString => acc
  end.

(** ** JavaScript values of the request body *)

(** [JNum n] is the number whose value is the integer [n]; it is a number
    of the language when [n] is a double, that is when [round_double n] is
    [n] (every [n] of magnitude at most 2^53 is). *)
Inductive JsVal : Type :=
  | JUndefined
  | JNull
  | JBool (b : bool)
  | JNum (n : Z)
  | JNaN
  | JInf (negative : bool)
  | JStr (s : string).

Global Instance JsVal_eq_dec : EqDecision JsVal.
Proof. solve_decision. Defined.

(** *** Numbers *)

(** The double nearest to the integer [x], ties going to the even
    significand; [None] when the magnitude rounds to Infinity.  Every integer
    of magnitude at most 2^53 is a double.  Beyond, with [q] the spacing of
    the doubles around [x], the magnitude is [m * q + r] and goes to
    [m * q] or [(m + 1) * q]. *)
Definition round_double (x : Z) : option Z :=
  let a := Z.abs x in
  if a <=? 2 ^ 53 then Some x
  else
    let q := 2 ^ (Z.log2 a - 52) in
    let m := a / q in
    let r := a mod q in
    let up := (q <? 2 * r) || ((q =? 2 * r) && Z.odd m) in
    let rounded := (if up then m + 1 else m) * q in
    if 2 ^ 1024 <=? rounded then None else Some (Z.sgn x * rounded).

(** The Number value of a mathematical integer. *)
Definition js_number (x : Z) : JsVal :=
  match round_double x with
  | Some m => JNum m
  | None => JInf (x <? 0)
  end.

(** The decimal numeral of a natural number, and its number of digits. *)
Definition numeral (x : Z) : string := pretty x.

Definition numeral_length (x : Z) : Z := Z.of_nat (String.length (numeral x)).

(** Number::toString looks for integers [n], [k], [s] with [s] of [k]
    digits, [s * 10^(n-k)] a number that reads back as [x], and [k] as small
    as possible.  For a given [k] these are the candidates [(s, n)]: the
    multiples of [10^(n-k)] next to [x], with [n] the number of digits of
    [x] or one more. *)
Definition candidates (x k : Z) : list (Z * Z) :=
  n ← [numeral_length x; numeral_length x + 1];
  if n <? k then []
  else
    let p := 10 ^ (n - k) in
    s ← [x / p; x / p + 1];
    if (10 ^ (k - 1) <=? s) && (s <? 10 ^ k)
       && bool_decide (round_double (s * p) = Some x)
    then [(s, n)] else [].

(** Of two candidates the one nearer to [x], and on a tie the even one. *)
Definition closer (x k : Z) (c1 c2 : Z * Z) : Z * Z :=
  let distance (c : Z * Z) := Z.abs (c.1 * 10 ^ (c.2 - k) - x) in
  if distance c2 <? distance c1 then c2
  else if (distance c2 =? distance c1) && Z.even c2.1 then c2
  else c1.

(** The shortest digits of [x], trying [k], [k + 1], ...; seventeen digits
    always suffice for a double. *)
Fixpoint shortest_from (fuel : nat) (x k : Z) : Z * Z * Z :=
  match fuel with
  | O => (x, numeral_length x, numeral_length x)
  | S fuel' =>
      match candidates x k with
      | c :: cs => (foldl (closer x k) c cs, k)
      | [] => shortest_from fuel' x (k + 1)
      end
  end.

Fixpoint zeros (n : nat) : string :=
  match n with
  | O => EmptyString
  | S n' => String "0" (zeros n')
  end.

(** Number::toString on a positive integer: up to 2^53 every integer is a
    double and the shortest digits that read back as [x] are its own
    numeral; beyond, the shortest digits, padded with zeros up to 21 digits
    and in exponent form from there. *)
Definition positive_to_string (x : Z) : string :=
  if x <=? 2 ^ 53 then numeral x
  else
    let '(s, n, k) := shortest_from 17 x 1 in
    if n <=? 21 then numeral s +:+ zeros (Z.to_nat (n - k))
    else
      match numeral s with
      | String c EmptyString => String c "e+" +:+ numeral (n - 1)
      | String c more => String c ("." +:+ more) +:+ "e+" +:+ numeral (n - 1)
      | EmptyString => EmptyString
      end.

(** Number::toString on an integer. *)
Definition number_to_string (x : Z) : string :=
  if x =? 0 then "0"
  else if x <? 0 then "-" +:+ positive_to_string (- x)
  else positive_to_string x.

(** [parseInt(s, 10)] on a string that starts with a digit (the only use in
    the source is on a captured [\d+]): the Number value of the integer the
    digits denote.  (The language lets an implementation replace the digits
    after the twentieth by zeros before it rounds; the model rounds the
    exact integer.) *)
Definition parseInt10 (s : string) : JsVal := js_number (parse_digits 0 s).

(** ToBoolean *)
Definition truthy (v : JsVal) : bool :=
  match v with
  | JUndefined | JNull | JNaN => false
  | JBool b => b
  | JNum n => negb (n =? 0)
  | JInf _ => true
  | JStr s => negb (String.eqb s "")
  end.

(** [!v] *)
Definition js_not (v : JsVal) : bool := negb (truthy v).

(** ToString, as applied by a template literal. *)
Definition to_string (v : JsVal) : string :=
  match v with
  | JUndefined => "undefined"
  | JNull => "null"
  | JBool true => "true"
  | JBool false => "false"
  | JNum n => number_to_string n
  | JNaN => "NaN"
  | JInf false => "Infinity"
  | JInf true => "-Infinity"
  | JStr s => s
  end.

(** [a === b] *)
Definition strict_eq (a b : JsVal) : bool :=
  match a, b with
  | JNaN, _ | _, JNaN => false
  | _, _ => bool_decide (a = b)
  end.

(** [v + k] for a number [k]: string concatenation when [v] is a string,
    addition of doubles after ToNumber otherwise. *)
Definition js_plus (v : JsVal) (k : Z) : JsVal :=
  match v with
  | JStr s => JStr (s +:+ number_to_string k)
  | JNum n => js_number (n + k)
  | JBool true => js_number (1 + k)
  | JBool false | JNull => js_number k
  | JInf negative => JInf negative
  | JUndefined | JNaN => JNaN
  end.

(** ** Parsing of the generated text *)

(** [/[A-D]\. .*/.test(line)]: the pattern is not anchored and [.*] may be
    empty, so the test holds when a letter A-D followed by a period and a
    space occurs anywhere in the line. *)
Fixpoint option_line (line : string) : bool :=
  match line with
  | String c rest =>
      (is_A_to_D c && bool_decide (is_Some (match_lit ". " rest)))
      || option_line rest
  | EmptyString => false
  end.

(** [aiContent.split('\n').filter(line => line.trim() !== '')] *)
Definition content_lines (aiContent : string) : list string :=
  List.filter non_blank (split_lines aiContent).

(** [lines[0] || ""] *)
Definition parse_question (aiContent : string) : string :=
  hd "" (content_lines aiContent).

(** [lines.slice(1, 5).filter(line => /[A-D]\. .*/.test(line))] *)
Definition parse_options (aiContent : string) : list string :=
  List.filter option_line (take 4 (drop 1 (content_lines aiContent))).

(** [/Chaos score: (\d+)/i] matched at the start of [s]: the captured digits. *)
Definition score_at (s : string) : option string :=
  match match_ci "Chaos score: " s with
  | Some rest => fst <$> match_digits rest
  | None => None
  end.

(** [aiContent.match(/Chaos score: (\d+)/i)]: the leftmost match, group 1. *)
Fixpoint scoreMatch (s : string) : option string :=
  match score_at s with
  | Some ds => Some ds
  | None => match s with
            | String _ s' => scoreMatch s'
            | EmptyString => None
            end
  end.

Definition parse_score (aiContent : string) : JsVal :=
  match scoreMatch aiContent with
  | Some ds => parseInt10 ds
  | None => JNum 0
  end.

(** [([\s\S]*?)(?:\nRecommendation|$)] under the [i] flag, from the start of
    [s]: the shortest prefix followed by the heading or by the end of input. *)
Fixpoint until_recommendation (s : string) : string :=
  match match_ci (String LF "Recommendation") s with
  | Some _ => EmptyString
  | None => match s with
            | String c s' => String c (until_recommendation s')
            | EmptyString => EmptyString
            end
  end.

(** [/Top \d+ operational issues:\n([\s\S]*?)(?:\nRecommendation|$)/i] at
    the start of [s]: group 1. *)
Definition issues_at (s : string) : option string :=
  rest ← match_ci "Top " s;
  '(_, rest) ← match_digits rest;
  rest ← match_ci (" operational issues:" +:+ String LF "") rest;
  Some (until_recommendation rest).

Fixpoint issuesMatch (s : string) : option string :=
  match issues_at s with
  | Some body => Some body
  | None => match s with
            | String _ s' => issuesMatch s'
            | EmptyString => None
            end
  end.

(** The pattern [Recommendations:\n] under the [i] flag followed by a greedy
    capture of everything up to the end of input: group 1 of the leftmost
    match. *)
Fixpoint recommendationsMatch (s : string) : option string :=
  match match_ci ("Recommendations:" +:+ String LF "") s with
  | Some rest => Some rest
  | None => match s with
            | String _ s' => recommendationsMatch s'
            | EmptyString => None
            end
  end.

(** [m[1].split('\n').filter(line => line.trim() !== '').map(line => line.trim())] *)
Definition trimmed_lines (body : string) : list string :=
  trim <$> List.filter non_blank (split_lines body).

Record Report : Type := {
  score : JsVal;
  topIssues : list string;
  recommendations : list string
}.

Definition parse_report (aiContent : string) : Report :=
  {| score := parse_score aiContent;
     topIssues := from_option trimmed_lines [] (issuesMatch aiContent);
     recommendations :=
       from_option trimmed_lines [] (recommendationsMatch aiContent) |}.

(** ** Sessions *)

Record Session : Type := {
  businessType : JsVal;
  answers : list string;
  lastActivity : Z
}.

Global Instance Session_eq_dec : EqDecision Session.
Proof. solve_decision. Defined.

(** [sessions.get(sessionId)]: the keys of the map are strings, so a key of
    another type finds nothing.  The key is returned with the record, for
    the writes the handler makes through the reference it got. *)
Definition sessions_get (sessionId : JsVal) (sessions : gmap string Session)
  : option (string * Session) :=
  match sessionId with
  | JStr key => (λ session, (key, session)) <$> sessions !! key
  | _ => None
  end.

(** The cleanup threshold, [30 * 60 * 1000] milliseconds. *)
Definition IDLE_MS : Z := 30 * 60 * 1000.

Definition expired (now : Z) (session : Session) : bool :=
  IDLE_MS <? now - lastActivity session.

(** The body of the cleanup timer: [sessions.forEach] with a delete of the
    entry being visited. *)
Definition sweep (now : Z) (sessions : gmap string Session)
  : gmap string Session :=
  map_fold (λ sessionId session acc,
              if expired now session then delete sessionId acc else acc)
           sessions sessions.

(** ** The text generator *)

(** Outcome of [openai.chat.completions.create]: a rejected promise, or a
    response whose choices carry a message content that is a string or null. *)
Inductive ApiOutcome : Type :=
  | ApiError
  | ApiResponse (choices : list (option string)).

Definition Generator : Type := string → Z → ApiOutcome.

(** [openaiResponse.choices[0].message.content], [None] where the source
    throws (rejection, no first choice, or [.trim()] on a null content). *)
Definition first_content (o : ApiOutcome) : option string :=
  match o with
  | ApiResponse (Some content :: _) => Some content
  | _ => None
  end.

(** ** Responses *)

Record GeneratedQuestion : Type := {
  question : string;
  options : list string;
  questionNumber : JsVal;
  isComplete : bool
}.

Inductive Payload : Type :=
  | StartData (sessionId : string) (q : GeneratedQuestion)
  | QuestionData (q : GeneratedQuestion)
  | ReportData (r : Report).

Inductive Response : Type :=
  | Success (data : Payload)
  | Failure (code : Z) (error : string).

Definition status (r : Response) : Z :=
  match r with
  | Success _ => 200
  | Failure code _ => code
  end.

Definition firstQuestion : GeneratedQuestion :=
  {| question := "What best describes your business?";
     options := [ "A. Retail and E-commerce";
                  "B. Service-based Business (consulting, agency, etc.)";
                  "C. Manufacturing and Production";
                  "D. Technology and Software Development" ];
     questionNumber := JNum 1;
     isComplete := false |}.

Definition question_prompt (session : Session) : string :=
  "Business type: " +:+ to_string (businessType session)
  +:+ ", Previous answers: " +:+ join "; " (answers session)
  +:+ ". Generate next revealing question about their operations with 4 options A-D from organized to chaotic.".

Definition report_prompt (session : Session) : string :=
  "Analyze responses: " +:+ join "; " (answers session)
  +:+ ". Create chaos score 1-100 and identify top 3 operational issues and provide actionable recommendations for each.".

(** The entry pushed on [answers]. *)
Definition answer_entry (questionNumber selectedAnswer : JsVal) : string :=
  "Question " +:+ to_string questionNumber +:+ ": " +:+ to_string selectedAnswer.

(** ** The handlers *)

Section Handlers.

(** [s >= k] for a string [s] and a number [k]: the string is converted
    with the runtime's StringToNumber, whose numeric grammar and rounding
    are outside the model. *)
Variable string_ge : string → Z → bool.

(** [v >= k] *)
Definition js_ge (v : JsVal) (k : Z) : bool :=
  match v with
  | JNum n => k <=? n
  | JStr s => string_ge s k
  | JBool true => k <=? 1
  | JBool false | JNull => k <=? 0
  | JInf negative => negb negative
  | JUndefined | JNaN => false
  end.

(** POST /api/start-assessment *)
Definition start_assessment (uuid : string) (now : Z)
    (sessions : gmap string Session) : Response * gmap string Session :=
  (Success (StartData uuid firstQuestion),
   <[uuid := {| businessType := JNull; answers := []; lastActivity := now |}]>
     sessions).

(** The writes of /api/next-question on the session it found. *)
Definition record_answer (now : Z) (selectedAnswer questionNumber : JsVal)
    (session : Session) : Session :=
  {| businessType := if strict_eq questionNumber (JNum 1) then selectedAnswer
                     else businessType session;
     answers := answers session ++ [answer_entry questionNumber selectedAnswer];
     lastActivity := now |}.

(** POST /api/next-question *)
Definition next_question (gen : Generator) (now : Z)
    (sessionId selectedAnswer questionNumber : JsVal)
    (sessions : gmap string Session) : Response * gmap string Session :=
  if js_not sessionId || js_not selectedAnswer || js_not questionNumber then
    (Failure 400 "Missing sessionId, selectedAnswer, or questionNumber", sessions)
  else
    match sessions_get sessionId sessions with
    | None => (Failure 404 "Session not found or expired", sessions)
    | Some (key, session) =>
        let session := record_answer now selectedAnswer questionNumber session in
        let sessions := <[key := session]> sessions in
        match first_content (gen (question_prompt session) 200) with
        | Some content =>
            let aiContent := trim content in
            (Success (QuestionData
               {| question := parse_question aiContent;
                  options := parse_options aiContent;
                  questionNumber := js_plus questionNumber 1;
                  isComplete := js_ge questionNumber 5 |}),
             sessions)
        | None => (Failure 500 "Failed to generate next question", sessions)
        end
    end.

(** [session.lastActivity = Date.now()] *)
Definition touch (now : Z) (session : Session) : Session :=
  {| businessType := businessType session;
     answers := answers session;
     lastActivity := now |}.

(** POST /api/generate-report *)
Definition generate_report (gen : Generator) (now : Z) (sessionId : JsVal)
    (sessions : gmap string Session) : Response * gmap string Session :=
  if js_not sessionId then (Failure 400 "Missing sessionId", sessions)
  else
    match sessions_get sessionId sessions with
    | None => (Failure 404 "Session not found or expired", sessions)
    | Some (key, session) =>
        let session := touch now session in
        let sessions := <[key := session]> sessions in
        match first_content (gen (report_prompt session) 500) with
        | Some content =>
            let aiContent := trim content in
            (Success (ReportData (parse_report aiContent)),
             delete key sessions)
        | None => (Failure 500 "Failed to generate report", sessions)
        end
    end.

End Handlers.

(** * Vocabulary of the properties *)

(** ** Outcomes and runs *)

(** What the handler does with the outcome of the generator once the
    session has been found and touched. *)
Definition report_outcome (key : string) (now : Z) (session : Session)
    (sessions : gmap string Session)
    (outcome : ApiOutcome) : Response * gmap string Session :=
  match first_content outcome with
  | Some content =>
      (Success (ReportData (parse_report (trim content))),
       delete key sessions)
  | None =>
      (Failure 500 "Failed to generate report",
       <[key := touch now session]> sessions)
  end.

(** One next-question call of a client: the generator and the clock it
    meets and the answer it sends. *)
Record Turn : Type := {
  turn_gen : Generator;
  turn_now : Z;
  turn_answer : JsVal
}.

Section Runs.

Variable string_ge : string → Z → bool.

(** The response of a call that got past validation and lookup. *)
Definition question_response (gen : Generator) (session : Session)
    (questionNumber : JsVal)
  : Response :=
  match first_content (gen (question_prompt session) 200) with
  | Some content =>
      Success (QuestionData
        {| question := parse_question (trim content);
           options := parse_options (trim content);
           questionNumber := js_plus questionNumber 1;
           isComplete := js_ge string_ge questionNumber 5 |})
  | None => Failure 500 "Failed to generate next question"
  end.

(** Successive next-question calls on one session, numbered from [n]. *)
Fixpoint answer_turns (sessionId : JsVal) (n : Z) (turns : list Turn)
    (sessions : gmap string Session)
  : list Response * gmap string Session :=
  match turns with
  | [] => ([], sessions)
  | t :: rest =>
      let '(response, sessions) :=
        next_question string_ge (turn_gen t) (turn_now t) sessionId
          (turn_answer t) (JNum n) sessions in
      let '(responses, sessions) :=
        answer_turns sessionId (n + 1) rest sessions in
      (response :: responses, sessions)
  end.

End Runs.


(** The generator answers, with a first choice that has a content,
    whatever it is asked. *)
Definition succeeds (gen : Generator) : Prop :=
  ∀ prompt max_tokens, is_Some (first_content (gen prompt max_tokens)).

Definition valid_turn (t : Turn) : Prop :=
  succeeds (turn_gen t) ∧ truthy (turn_answer t) = true.

(** The code units of a string. *)
Definition chars (s : string) : list ascii := list_ascii_of_string s.

(** A string of white space only. *)
Definition Blank (line : string) : Prop :=
  Forall (λ c, is_js_space c = true) (chars line).

Global Instance Blank_dec line : Decision (Blank line).
Proof. unfold Blank. apply _. Defined.

(** A letter A to D, a period and a space, then any text; what comes before
    the letter is not constrained, as the pattern of the source is not
    anchored. *)
Definition OptionShaped (line : string) : Prop :=
  ∃ pre letter text,
    line = pre +:+ String letter (". " +:+ text)
    ∧ letter ∈ ["A"; "B"; "C"; "D"]%char.

(** A line that is a letter A to D, a period and a space, then any text:
    the pattern read as the shape of the whole line. *)
Definition StrictOption (line : string) : Prop :=
  ∃ letter text,
    line = String letter (". " +:+ text)
    ∧ letter ∈ ["A"; "B"; "C"; "D"]%char.

(** The lines of a text: the pieces between its line feeds. *)
Definition Lines (text : string) (lines : list string) : Prop :=
  Forall (λ line, LF ∉ chars line) lines
  ∧ lines ≠ []
  ∧ join (String LF "") lines = text.

(** [kept] is what remains of [l] when the elements that do not satisfy [P]
    are dropped: nothing added, nothing reordered. *)
Inductive Kept {A : Type} (P : A → Prop) : list A → list A → Prop :=
  | Kept_nil : Kept P [] []
  | Kept_keep x l kept : P x → Kept P l kept → Kept P (x :: l) (x :: kept)
  | Kept_drop x l kept : ¬ P x → Kept P l kept → Kept P (x :: l) kept.

(** Equality of two strings up to the case of ASCII letters. *)
Fixpoint ci_equal (a b : string) : Prop :=
  match a, b with
  | EmptyString, EmptyString => True
  | String x a', String y b' => to_upper x = to_upper y ∧ ci_equal a' b'
  | _, _ => False
  end.

Definition all_digits (s : string) : Prop :=
  Forall (λ c, is_digit c = true) (chars s).

Definition starts_with_digit (s : string) : Prop :=
  match s with
  | String c _ => is_digit c = true
  | EmptyString => False
  end.

(** The number a string of decimal digits denotes. *)
Fixpoint decimal_value (s : string) : Z :=
  match s with
  | EmptyString => 0
  | String c s' =>
      digit_value c * 10 ^ Z.of_nat (String.length s') + decimal_value s'
  end.

(** A match of "Chaos score: <digits>" at the start of [text], in any case of
    the letters, with [ds] the digits: all the digits that follow the colon
    and the space. *)
Definition ScoreAt (text ds : string) : Prop :=
  ∃ heading rest,
    text = heading +:+ ds +:+ rest
    ∧ ci_equal heading "Chaos score: "
    ∧ ds ≠ "" ∧ all_digits ds ∧ ¬ starts_with_digit rest.

(** No match starts inside [pre], when [pre] is followed by [text]. *)
Definition no_match_inside (pre text : string) : Prop :=
  ∀ before inside ds,
    pre = before +:+ inside → inside ≠ "" → ¬ ScoreAt (inside +:+ text) ds.

(** [no_match_inside], computed. *)
Fixpoint no_match_check (pre text : string) : bool :=
  match pre with
  | EmptyString => true
  | String _ pre' =>
      bool_decide (score_at (pre +:+ text) = None) && no_match_check pre' text
  end.

(** ** The server as a whole *)

(** What reaches the session map: the three POST routes and the cleanup
    timer.  The GET routes neither read nor write the map.  The identifier
    that [uuidv4()] draws is part of the start request. *)
Inductive Request : Type :=
  | PostStartAssessment (uuid : string)
  | PostNextQuestion (gen : Generator)
      (sessionId selectedAnswer questionNumber : JsVal)
  | PostGenerateReport (gen : Generator) (sessionId : JsVal)
  | CleanupTimer.

Section Server.

Variable string_ge : string → Z → bool.

(** The session map after one request served at time [now]. *)
Definition handle (now : Z) (request : Request)
    (sessions : gmap string Session) : gmap string Session :=
  match request with
  | PostStartAssessment uuid => (start_assessment uuid now sessions).2
  | PostNextQuestion gen sessionId selectedAnswer questionNumber =>
      (next_question string_ge gen now sessionId selectedAnswer questionNumber
         sessions).2
  | PostGenerateReport gen sessionId =>
      (generate_report gen now sessionId sessions).2
  | CleanupTimer => sweep now sessions
  end.

(** The session map after a sequence of timed requests. *)
Fixpoint run (events : list (Z * Request)) (sessions : gmap string Session)
  : gmap string Session :=
  match events with
  | [] => sessions
  | (now, request) :: rest => run rest (handle now request sessions)
  end.

End Server.


(** ** Headings of the report *)

(** The shape shared by the three searches of the report parser: the match
    at the leftmost position. *)
Fixpoint leftmost {A : Type} (here : string → option A) (s : string)
  : option A :=
  match here s with
  | Some found => Some found
  | None => match s with
            | String _ s' => leftmost here s'
            | EmptyString => None
            end
  end.

(** [text] starts with [pat], letters in any case. *)
Definition OccursAt (pat text : string) : Prop :=
  ∃ heading rest, text = heading +:+ rest ∧ ci_equal heading pat.

(** [text] starts with "Top <digits> operational issues:" and a line feed,
    letters in any case, and [after] is what follows. *)
Definition IssuesHeadingAt (text after : string) : Prop :=
  ∃ top ds title,
    text = top +:+ ds +:+ title +:+ after
    ∧ ci_equal top "Top "
    ∧ ds ≠ "" ∧ all_digits ds
    ∧ ci_equal title (" operational issues:" +:+ String LF "").

(** [P] holds at no position inside [pre], when [pre] is followed by [text]. *)
Definition nowhere_inside (P : string → Prop) (pre text : string) : Prop :=
  ∀ before inside,
    pre = before +:+ inside → inside ≠ "" → ¬ P (inside +:+ text).

(** [P] holds at no position of [text], its end included. *)
Definition nowhere (P : string → Prop) (text : string) : Prop :=
  ∀ before rest, text = before +:+ rest → ¬ P rest.

(** The non-blank lines of a text, each trimmed. *)
Definition TrimmedLines (text : string) (entries : list string) : Prop :=
  ∃ lines kept,
    Lines text lines
    ∧ Kept (λ line, ¬ Blank line) lines kept
    ∧ entries = trim <$> kept.

(** No match of [here] starts inside [pre], when [pre] is followed by
    [text]: the test, computed. *)
Fixpoint none_inside {A : Type} (here : string → option A)
    (pre text : string) : bool :=
  match pre with
  | EmptyString => true
  | String _ pre' =>
      match here (pre +:+ text) with
      | None => none_inside here pre' text
      | Some _ => false
      end
  end.

(** A string that does not start with white space. *)
Definition starts_clean (s : string) : Prop :=
  match s with
  | String c _ => is_js_space c = false
  | EmptyString => True
  end.

(** * Properties *)

(** ** Strings *)

Lemma app_cons c (s t : string) : String c s +:+ t = String c (s +:+ t).
Proof. reflexivity. Qed.

Lemma app_nil_l (s : string) : "" +:+ s = s.
Proof. reflexivity. Qed.

Lemma app_nil_r (s : string) : s +:+ "" = s.
Proof. induction s as [| c s IH]; [done |]. by rewrite app_cons, IH. Qed.

Lemma Blank_nil : Blank "".
Proof. constructor. Qed.

Lemma Blank_cons c s : Blank (String c s) ↔ is_js_space c = true ∧ Blank s.
Proof.
  unfold Blank, chars. simpl.
  apply (Forall_cons (λ c, is_js_space c = true)).
Qed.

Lemma trim_start_empty s : trim_start s = "" ↔ Blank s.
Proof.
  induction s as [| c s IH]; simpl.
  - split; [intros _; apply Blank_nil | done].
  - rewrite Blank_cons. destruct (is_js_space c); [| split; [done | by intros [? _]]].
    rewrite IH. tauto.
Qed.

Lemma trim_start_Blank s : Blank (trim_start s) ↔ Blank s.
Proof.
  induction s as [| c s IH]; simpl; [done |].
  destruct (is_js_space c) eqn:E; [| done].
  rewrite IH, Blank_cons. tauto.
Qed.

Lemma trim_end_empty s : trim_end s = "" ↔ Blank s.
Proof.
  induction s as [| c s IH]; simpl.
  - split; [intros _; apply Blank_nil | done].
  - rewrite Blank_cons. destruct (trim_end s) as [| k kept].
    + destruct (is_js_space c); [tauto |].
      split; [done | by intros [? _]].
    + split; [done |]. intros [_ H]. by apply IH in H.
Qed.

Lemma trim_empty s : trim s = "" ↔ Blank s.
Proof. unfold trim. by rewrite trim_end_empty, trim_start_Blank. Qed.

Lemma non_blank_iff line : non_blank line = true ↔ ¬ Blank line.
Proof.
  unfold non_blank. rewrite negb_true_iff, String.eqb_neq.
  by rewrite trim_empty.
Qed.

Lemma is_A_to_D_iff c : is_A_to_D c = true ↔ c ∈ ["A"; "B"; "C"; "D"]%char.
Proof.
  unfold is_A_to_D, code. rewrite bool_decide_eq_true. split.
  - intros H. rewrite <- (ascii_nat_embedding c).
    assert (nat_of_ascii c ∈ [65; 66; 67; 68]%nat) as Hin.
    { repeat rewrite elem_of_cons. lia. }
    repeat (apply elem_of_cons in Hin as [Heq | Hin];
              [rewrite Heq; simpl; repeat constructor |]).
    by apply elem_of_nil in Hin.
  - intros H. repeat (apply elem_of_cons in H as [-> | H]; [vm_compute; lia |]).
    by apply elem_of_nil in H.
Qed.

Lemma match_lit_Some pat s rest :
  match_lit pat s = Some rest ↔ s = pat +:+ rest.
Proof.
  revert s. induction pat as [| p pat IH]; intros s; simpl.
  - rewrite app_nil_l. split; congruence.
  - destruct s as [| c s]; [by rewrite app_cons |].
    rewrite app_cons. case_bool_decide as E.
    + subst. rewrite IH. split; congruence.
    + split; [done | congruence].
Qed.

Lemma option_line_cons c rest :
  option_line (String c rest) =
  (is_A_to_D c && bool_decide (is_Some (match_lit ". " rest)))
  || option_line rest.
Proof. reflexivity. Qed.

Lemma option_line_iff line : option_line line = true ↔ OptionShaped line.
Proof.
  split.
  - induction line as [| c rest IH]; [done |].
    rewrite option_line_cons.
    intros [[Hc Hm]%andb_true_iff | H]%orb_true_iff.
    + apply bool_decide_eq_true in Hm as [text Hm].
      apply match_lit_Some in Hm as ->.
      exists "", c, text. split; [done |]. by apply is_A_to_D_iff.
    + destruct (IH H) as (pre & letter & text & -> & Hl).
      by exists (String c pre), letter, text.
  - intros (pre & letter & text & -> & Hl).
    induction pre as [| c pre IH].
    + rewrite app_nil_l, option_line_cons. apply orb_true_iff. left.
      apply andb_true_iff. split; [by apply is_A_to_D_iff |].
      apply bool_decide_eq_true. exists text. by apply match_lit_Some.
    + rewrite app_cons, option_line_cons, IH. apply orb_true_r.
Qed.

Lemma split_lines_not_nil s : split_lines s ≠ [].
Proof.
  induction s as [| c s IH]; simpl; [done |].
  case_bool_decide; [done |]. by destruct (split_lines s).
Qed.

Lemma split_lines_LF t : split_lines (String LF t) = "" :: split_lines t.
Proof. reflexivity. Qed.

Lemma split_lines_Lines text : Lines text (split_lines text).
Proof.
  split; [| split; [apply split_lines_not_nil |]].
  - induction text as [| c s IH]; simpl.
    + repeat constructor. unfold chars. simpl. apply not_elem_of_nil.
    + pose proof (split_lines_not_nil s) as Hne.
      case_bool_decide as E.
      * constructor; [unfold chars; simpl; apply not_elem_of_nil | done].
      * destruct (split_lines s) as [| l ls]; [done |].
        apply Forall_cons in IH as [Hl Hls]. constructor; [| done].
        unfold chars in *. simpl. rewrite not_elem_of_cons. done.
  - induction text as [| c s IH]; simpl; [done |].
    pose proof (split_lines_not_nil s) as Hne.
    case_bool_decide as E.
    + subst c. destruct (split_lines s) as [| l ls]; [done |].
      rewrite <- IH. reflexivity.
    + destruct (split_lines s) as [| l ls]; [done |].
      rewrite <- IH. by destruct ls.
Qed.

(** A text has one list of lines. *)
Lemma Lines_unique text lines : Lines text lines → lines = split_lines text.
Proof.
  intros (Hfree & Hne & <-).
  induction lines as [| l ls IH]; [done |].
  apply Forall_cons in Hfree as [Hl Hls].
  assert (Hstep : ∀ tail, split_lines (l +:+ tail) =
            match split_lines tail with
            | t :: ts => (l +:+ t) :: ts
            | [] => [l]
            end).
  { intros tail. clear -Hl. induction l as [| c l IHl].
    - rewrite app_nil_l. pose proof (split_lines_not_nil tail).
      by destruct (split_lines tail).
    - apply not_elem_of_cons in Hl as [Hc Hl].
      rewrite app_cons. simpl.
      rewrite bool_decide_eq_false_2 by congruence.
      rewrite (IHl Hl). by destruct (split_lines tail). }
  destruct ls as [| l' ls'].
  - specialize (Hstep ""). simpl in Hstep. rewrite !app_nil_r in Hstep.
    simpl. by rewrite Hstep.
  - change (join (String LF "") (l :: l' :: ls'))
      with (l +:+ String LF (join (String LF "") (l' :: ls'))).
    rewrite Hstep, split_lines_LF. lazy beta iota.
    rewrite app_nil_r. f_equal. by apply IH.
Qed.

(** ** The question-extraction rule *)

Lemma Kept_filter {A} (f : A → bool) (P : A → Prop) (l : list A) :
  (∀ x, f x = true ↔ P x) → Kept P l (List.filter f l).
Proof.
  intros Hf. induction l as [| x l IH]; simpl; [constructor |].
  destruct (f x) eqn:E.
  - apply Kept_keep; [by apply Hf | done].
  - apply Kept_drop; [| done]. rewrite <- Hf. congruence.
Qed.

Lemma Kept_functional {A} (P : A → Prop) (l k1 k2 : list A) :
  Kept P l k1 → Kept P l k2 → k1 = k2.
Proof.
  intros H1. revert k2.
  induction H1 as [| x l k Hx _ IH | x l k Hx _ IH]; intros k2 H2;
    inversion H2; subst; try done.
  - f_equal. by apply IH.
  - by apply IH.
Qed.

Lemma Kept_length {A} (P : A → Prop) (l k : list A) :
  Kept P l k → (length k ≤ length l)%nat.
Proof. induction 1; simpl; lia. Qed.

Lemma List_filter_all {A} (f : A → bool) (l : list A) :
  Forall (λ x, f x = true) l → List.filter f l = l.
Proof.
  induction 1 as [| x l Hx _ IH]; simpl; [done |]. by rewrite Hx, IH.
Qed.

(** C5: with the lines of the text being the pieces between its line feeds
    and a blank line one of white space only, the question is the first
    non-blank line (the empty string when there is none) and the options are
    those of the next four non-blank lines in which a letter A-D, a period
    and a space are followed by any text (the test of the source, which is
    not anchored), in the order of the text; so there are at most four.  In
    particular, for a text made of a question line and an option block of at
    most four non-blank lines, the options are exactly the well-formed lines
    of the block, in order. *)
Theorem question_extraction :
  (∀ aiContent, ∃ lines non_blank_lines,
     Lines aiContent lines
     ∧ Kept (λ line, ¬ Blank line) lines non_blank_lines
     ∧ parse_question aiContent = hd "" non_blank_lines
     ∧ Kept OptionShaped (take 4 (drop 1 non_blank_lines))
         (parse_options aiContent)
     ∧ (length (parse_options aiContent) ≤ 4)%nat)
  ∧ (∀ q block,
       Forall (λ line, (LF ∉ chars line) ∧ ¬ Blank line) (q :: block) →
       (length block ≤ 4)%nat →
       parse_question (join (String LF "") (q :: block)) = q
       ∧ Kept OptionShaped block
           (parse_options (join (String LF "") (q :: block)))).
Proof.
  split.
  - intros aiContent.
    exists (split_lines aiContent), (content_lines aiContent).
    split; [apply split_lines_Lines |].
    split; [apply Kept_filter, non_blank_iff |].
    split; [done |].
    assert (Hkept : Kept OptionShaped (take 4 (drop 1 (content_lines aiContent)))
                      (parse_options aiContent))
      by apply Kept_filter, option_line_iff.
    split; [done |].
    apply Kept_length in Hkept. rewrite length_take in Hkept. lia.
  - intros q block Hall Hlen.
    assert (Hsplit : split_lines (join (String LF "") (q :: block)) = q :: block).
    { symmetry. apply Lines_unique. split; [| done].
      eapply Forall_impl; [exact Hall |]. by intros line [? _]. }
    assert (Hlines : content_lines (join (String LF "") (q :: block)) = q :: block).
    { unfold content_lines. rewrite Hsplit. apply List_filter_all.
      eapply Forall_impl; [exact Hall |].
      intros line [_ ?]. by apply non_blank_iff. }
    unfold parse_question, parse_options. rewrite Hlines.
    split; [done |].
    change (drop 1 (q :: block)) with block.
    rewrite take_ge by lia. apply Kept_filter, option_line_iff.
Qed.

Lemma question_extraction_witness :
  let block := ["A. Daily"; "B. Weekly"; "not an option"; "D. Never"] in
  parse_question
    (join (String LF "") ("How often do you review stock?" :: block))
    = "How often do you review stock?"
  ∧ Kept OptionShaped block
      (parse_options
         (join (String LF "") ("How often do you review stock?" :: block))).
Proof.
  destruct question_extraction as [_ H].
  apply (H "How often do you review stock?"
           ["A. Daily"; "B. Weekly"; "not an option"; "D. Never"]).
  - apply (bool_decide_unpack _). vm_compute. exact I.
  - simpl. lia.
Defined.

(** C5 as stated fails: in this text the option block has exactly three
    lines that are a letter A-D, a period, a space and text, and the rule
    returns four options, the fourth being a line that only contains such a
    group. *)
Lemma option_pattern_is_not_anchored :
  let block := ["A. Daily"; "B. Weekly"; "C. Monthly"; "see D. above"] in
  let aiContent :=
    join (String LF "") ("How often do you review stock?" :: block) in
  Kept StrictOption block ["A. Daily"; "B. Weekly"; "C. Monthly"]
  ∧ parse_options aiContent
    = ["A. Daily"; "B. Weekly"; "C. Monthly"; "see D. above"]
  ∧ ¬ StrictOption "see D. above".
Proof.
  assert (Hno : ¬ StrictOption "see D. above").
  { by intros (letter & text & [=] & _). }
  split; [| split; [vm_compute; reflexivity | exact Hno]].
  apply Kept_keep; [eexists _, _; split; [reflexivity | repeat constructor] |].
  apply Kept_keep; [eexists _, _; split; [reflexivity | repeat constructor] |].
  apply Kept_keep; [eexists _, _; split; [reflexivity | repeat constructor] |].
  apply Kept_drop; [exact Hno | constructor].
Qed.

(** An option block with three well-formed lines among its four. *)
Example three_options_of_four :
  parse_options
    (join (String LF "")
       ["How often do you review stock?";
        "A. Daily"; "B. Weekly"; "not an option"; "D. Never"])
  = ["A. Daily"; "B. Weekly"; "D. Never"].
Proof. vm_compute. reflexivity. Qed.

(** ** The chaos score *)

Lemma match_ci_Some pat s rest :
  match_ci pat s = Some rest ↔ ∃ heading, s = heading +:+ rest ∧ ci_equal heading pat.
Proof.
  revert s. induction pat as [| p pat IH]; intros s; simpl.
  - split.
    + intros [= ->]. by exists "".
    + intros ([| c h] & -> & Hh); [done | by destruct Hh].
  - destruct s as [| c s].
    + split; [done |]. intros ([| x h] & Hs & Hh); [done | by rewrite app_cons in Hs].
    + unfold ascii_ci_eqb. case_bool_decide as E.
      * rewrite IH. split.
        -- intros (h & -> & Hh). by exists (String c h).
        -- intros ([| x h] & Hs & Hh); [done |].
           rewrite app_cons in Hs. injection Hs as <- ->.
           destruct Hh as [_ Hh]. by exists h.
      * split; [done |]. intros ([| x h] & Hs & Hh); [done |].
        rewrite app_cons in Hs. injection Hs as <- ->.
        destruct Hh as [Hx _]. congruence.
Qed.

Lemma all_digits_cons c s :
  all_digits (String c s) ↔ is_digit c = true ∧ all_digits s.
Proof.
  unfold all_digits, chars. simpl.
  apply (Forall_cons (λ c, is_digit c = true)).
Qed.

Lemma span_digits_sound s :
  s = (span_digits s).1 +:+ (span_digits s).2
  ∧ all_digits (span_digits s).1
  ∧ ¬ starts_with_digit (span_digits s).2.
Proof.
  induction s as [| c s (IHs & IHd & IHr)]; simpl.
  - repeat split; [constructor | tauto].
  - destruct (is_digit c) eqn:E.
    + destruct (span_digits s) as [ds rest]. simpl in *.
      repeat split; [by rewrite app_cons, <- IHs | | done].
      by apply all_digits_cons.
    + simpl. repeat split; [constructor | congruence].
Qed.

Lemma span_digits_complete ds rest :
  all_digits ds → ¬ starts_with_digit rest →
  span_digits (ds +:+ rest) = (ds, rest).
Proof.
  intros Hd Hr. induction ds as [| c ds IH].
  - rewrite app_nil_l. destruct rest as [| r rest]; [done |]. simpl in *.
    by destruct (is_digit r).
  - apply all_digits_cons in Hd as [Hc Hd].
    rewrite app_cons. simpl. by rewrite Hc, (IH Hd).
Qed.

Lemma span_digits_spec s ds rest :
  span_digits s = (ds, rest) ↔
  s = ds +:+ rest ∧ all_digits ds ∧ ¬ starts_with_digit rest.
Proof.
  split.
  - intros H. pose proof (span_digits_sound s) as Hs. by rewrite H in Hs.
  - intros (-> & Hd & Hr). by apply span_digits_complete.
Qed.

Lemma score_at_iff text ds : score_at text = Some ds ↔ ScoreAt text ds.
Proof.
  unfold score_at, ScoreAt, match_digits. split.
  - destruct (match_ci _ text) as [after|] eqn:Hm; [| done].
    apply match_ci_Some in Hm as (heading & -> & Hh).
    destruct (span_digits after) as [ds' rest] eqn:Hspan.
    apply span_digits_spec in Hspan as (-> & Hd & Hr).
    destruct (String.eqb_spec ds' ""); [done |].
    intros [= <-]. by exists heading, rest.
  - intros (heading & rest & -> & Hh & Hne & Hd & Hr).
    rewrite (proj2 (match_ci_Some _ _ (ds +:+ rest))) by eauto.
    rewrite (proj2 (span_digits_spec _ ds rest)) by done.
    by destruct (String.eqb_spec ds "").
Qed.

Lemma scoreMatch_eq s :
  scoreMatch s =
  match score_at s with
  | Some ds => Some ds
  | None => match s with
            | String _ s' => scoreMatch s'
            | EmptyString => None
            end
  end.
Proof. by destruct s. Qed.

Lemma scoreMatch_skip pre text :
  no_match_inside pre text → scoreMatch (pre +:+ text) = scoreMatch text.
Proof.
  induction pre as [| c pre IH]; intros Hno; [done |].
  rewrite scoreMatch_eq.
  destruct (score_at (String c pre +:+ text)) as [ds|] eqn:Hat.
  - apply score_at_iff in Hat. by destruct (Hno "" (String c pre) ds).
  - rewrite app_cons. apply IH. intros before inside ds -> Hne.
    by apply (Hno (String c before) inside ds).
Qed.

Lemma scoreMatch_none s :
  (∀ pre text ds, s = pre +:+ text → ¬ ScoreAt text ds) → scoreMatch s = None.
Proof.
  induction s as [| c s IH]; intros Hno; rewrite scoreMatch_eq.
  - destruct (score_at "") as [ds|] eqn:Hat; [| done].
    apply score_at_iff in Hat. by destruct (Hno "" "" ds).
  - destruct (score_at (String c s)) as [ds|] eqn:Hat.
    + apply score_at_iff in Hat. by destruct (Hno "" (String c s) ds).
    + apply IH. intros pre text ds -> Hat'.
      by apply (Hno (String c pre) text ds).
Qed.

Lemma scoreMatch_None s :
  scoreMatch s = None →
  ∀ pre text ds, s = pre +:+ text → ¬ ScoreAt text ds.
Proof.
  induction s as [| c s IH]; rewrite scoreMatch_eq;
    destruct (score_at _) as [found|] eqn:Hat; try done;
    intros Hrest [| p pre] text ds Hs Hfound;
    apply score_at_iff in Hfound.
  - rewrite app_nil_l in Hs. subst. congruence.
  - by rewrite app_cons in Hs.
  - rewrite app_nil_l in Hs. subst. congruence.
  - rewrite app_cons in Hs. injection Hs as <- ->.
    apply score_at_iff in Hfound. by eapply IH.
Qed.

Lemma no_match_check_sound pre text :
  no_match_check pre text = true → no_match_inside pre text.
Proof.
  induction pre as [| c pre IH]; intros Hcheck before inside ds Hpre Hne Hat.
  - destruct before, inside; done.
  - simpl in Hcheck. apply andb_true_iff in Hcheck as [Hhere Hlater].
    apply bool_decide_eq_true in Hhere. destruct before as [| b before].
    + rewrite app_nil_l in Hpre. subst inside.
      apply score_at_iff in Hat. congruence.
    + rewrite app_cons in Hpre. injection Hpre as <- ->.
      by apply (IH Hlater before inside ds).
Qed.

Lemma digit_value_range c : is_digit c = true → 0 ≤ digit_value c ≤ 9.
Proof.
  unfold is_digit, digit_value, code. rewrite bool_decide_eq_true. lia.
Qed.

Lemma parse_digits_value acc ds :
  all_digits ds →
  parse_digits acc ds = acc * 10 ^ Z.of_nat (String.length ds) + decimal_value ds.
Proof.
  revert acc. induction ds as [| c ds IH]; intros acc Hd.
  - simpl. lia.
  - apply all_digits_cons in Hd as [Hc Hd].
    cbn [parse_digits decimal_value String.length]. rewrite Hc, IH by done.
    rewrite Nat2Z.inj_succ, Z.pow_succ_r by lia. lia.
Qed.

Lemma parse_digits_nonneg acc s : 0 ≤ acc → 0 ≤ parse_digits acc s.
Proof.
  revert acc. induction s as [| c s IH]; intros acc Hacc; simpl; [done |].
  destruct (is_digit c) eqn:E; [| done].
  apply IH. pose proof (digit_value_range c E). lia.
Qed.

Lemma decimal_value_nonneg ds : all_digits ds → 0 ≤ decimal_value ds.
Proof.
  induction ds as [| c ds IH]; [done |].
  intros [Hc Hd]%all_digits_cons. cbn [decimal_value].
  pose proof (digit_value_range c Hc). specialize (IH Hd).
  assert (0 ≤ 10 ^ Z.of_nat (String.length ds)) by (apply Z.pow_nonneg; lia).
  nia.
Qed.

Lemma round_double_safe x : Z.abs x ≤ 2 ^ 53 → round_double x = Some x.
Proof.
  intros H. unfold round_double.
  by destruct (Z.leb_spec (Z.abs x) (2 ^ 53)); [| lia].
Qed.

Lemma js_number_safe x : Z.abs x ≤ 2 ^ 53 → js_number x = JNum x.
Proof. intros H. unfold js_number. by rewrite round_double_safe. Qed.

Lemma js_number_nonneg x :
  0 ≤ x → js_number x = JInf false ∨ ∃ n, js_number x = JNum n ∧ 0 ≤ n.
Proof.
  intros Hx. unfold js_number, round_double.
  destruct (Z.leb_spec (Z.abs x) (2 ^ 53)); [by eauto |].
  set (q := 2 ^ (Z.log2 (Z.abs x) - 52)).
  assert (Hq : 0 < q).
  { apply Z.pow_pos_nonneg; [lia |].
    assert (53 ≤ Z.log2 (Z.abs x)); [| lia].
    apply Z.log2_le_pow2; lia. }
  set (up := (q <? 2 * (Z.abs x `mod` q))
             || ((q =? 2 * (Z.abs x `mod` q)) && Z.odd (Z.abs x `div` q))).
  assert (Hm : 0 ≤ Z.abs x `div` q) by (apply Z.div_pos; lia).
  destruct (2 ^ 1024 <=? _).
  - left. by destruct (Z.ltb_spec x 0); [lia |].
  - right. eexists. split; [done |].
    assert (0 ≤ Z.sgn x) by lia. destruct up; nia.
Qed.

(** C6 as amended: the score is the number [parseInt] gives for the digits
    of the first match of "Chaos score: <digits>", letters in any case: the
    integer the digits denote whenever that is at most 2^53 (a greater one is
    rounded and is not covered here); it is 0 when the text has no such
    match; it is never negative, and nothing bounds it by 100.  A text whose
    first match is "Chaos score: 73", followed by no further digit, gives
    73. *)
Theorem chaos_score_first_match :
  (∀ pre text ds,
     ScoreAt text ds → no_match_inside pre text →
     decimal_value ds ≤ 2 ^ 53 →
     parse_score (pre +:+ text) = JNum (decimal_value ds))
  ∧ (∀ aiContent,
       (∀ pre text ds, aiContent = pre +:+ text → ¬ ScoreAt text ds) →
       parse_score aiContent = JNum 0)
  ∧ (∀ aiContent,
       parse_score aiContent = JInf false
       ∨ ∃ n, parse_score aiContent = JNum n ∧ 0 ≤ n)
  ∧ (∀ pre rest,
       no_match_inside pre ("Chaos score: 73" +:+ rest) →
       ¬ starts_with_digit rest →
       parse_score (pre +:+ "Chaos score: 73" +:+ rest) = JNum 73).
Proof.
  assert (Hfirst : ∀ pre text ds,
    ScoreAt text ds → no_match_inside pre text →
    decimal_value ds ≤ 2 ^ 53 →
    parse_score (pre +:+ text) = JNum (decimal_value ds)).
  { intros pre text ds Hat Hno Hsafe. unfold parse_score.
    rewrite (scoreMatch_skip _ _ Hno), scoreMatch_eq.
    pose proof Hat as (_ & _ & _ & _ & _ & Hd & _).
    apply score_at_iff in Hat as ->.
    unfold parseInt10. rewrite parse_digits_value by done.
    pose proof (decimal_value_nonneg ds Hd).
    replace (0 * 10 ^ Z.of_nat (String.length ds) + decimal_value ds)
      with (decimal_value ds) by lia.
    apply js_number_safe. lia. }
  split; [exact Hfirst |]. split; [| split].
  - intros aiContent Hno. unfold parse_score.
    by rewrite (scoreMatch_none _ Hno).
  - intros aiContent. unfold parse_score.
    destruct (scoreMatch aiContent); [| right; by exists 0].
    apply js_number_nonneg. by apply parse_digits_nonneg.
  - intros pre rest Hno Hrest.
    rewrite (Hfirst pre _ "73" ); [reflexivity | | done | by vm_compute].
    exists "Chaos score: ", rest. repeat split; try done.
    repeat constructor.
Qed.

Lemma chaos_score_first_match_witness :
  parse_score ("Score report. " +:+ "CHAOS SCORE: 41/100, was Chaos score: 73")
    = JNum (decimal_value "41")
  ∧ parse_score "No score in this text" = JNum 0
  ∧ parse_score ("Summary: " +:+ "Chaos score: 73" +:+ "%") = JNum 73.
Proof.
  destruct chaos_score_first_match as (Hfirst & Hnone & _ & H73).
  split; [| split].
  - apply Hfirst.
    + apply score_at_iff. reflexivity.
    + apply no_match_check_sound. reflexivity.
    + by vm_compute.
  - apply Hnone. apply scoreMatch_None. reflexivity.
  - apply H73; [apply no_match_check_sound; reflexivity |].
    intros Hdigit. vm_compute in Hdigit. discriminate.
Defined.

(** C6 as stated fails: a matched number above 100 is returned as it is; a
    text that contains "Chaos score: 73" gives another score when more
    digits follow or when a match comes before; and the score is not the
    integer of the digits when that is no double. *)
Lemma chaos_score_above_100 :
  score (parse_report "Chaos score: 250") = JNum 250
  ∧ ¬ (∃ n, score (parse_report "Chaos score: 250") = JNum n ∧ 0 ≤ n ≤ 100)
  ∧ score (parse_report "Chaos score: 731") = JNum 731
  ∧ score (parse_report "Chaos score: 5, was Chaos score: 73") = JNum 5
  ∧ score (parse_report "Chaos score: 9007199254740993")
    = JNum 9007199254740992.
Proof.
  vm_compute. repeat split; try reflexivity.
  intros (n & [= <-] & _ & H). by apply H.
Qed.

(** ** Numbers *)

(** The rounding and the printing of numbers at values where the result is
    known: 2^53 + 1 is no double, 2^60 and 2^64 print with padding zeros,
    10^21 and beyond print in exponent form. *)
Example number_model_examples :
  round_double (2 ^ 53 + 1) = Some (2 ^ 53)
  ∧ round_double (2 ^ 53 + 3) = Some (2 ^ 53 + 4)
  ∧ round_double (2 ^ 1024 - 2 ^ 970) = None
  ∧ js_plus (JNum 5) 1 = JNum 6
  ∧ js_plus (JNum (2 ^ 53)) 1 = JNum (2 ^ 53)
  ∧ number_to_string 42 = "42"
  ∧ number_to_string (-7) = "-7"
  ∧ number_to_string (2 ^ 53) = "9007199254740992"
  ∧ number_to_string (2 ^ 60) = "1152921504606847000"
  ∧ number_to_string (2 ^ 64) = "18446744073709552000"
  ∧ number_to_string (10 ^ 20) = "100000000000000000000"
  ∧ number_to_string (10 ^ 21) = "1e+21"
  ∧ number_to_string (2 ^ 70) = "1.1805916207174113e+21"
  ∧ number_to_string (2 ^ 1024 - 2 ^ 971) = "1.7976931348623157e+308".
Proof. repeat split; vm_compute; reflexivity. Qed.

(** ** The session map *)

Lemma sessions_get_Some sessionId sessions key session :
  sessions_get sessionId sessions = Some (key, session) ↔
  sessionId = JStr key ∧ sessions !! key = Some session.
Proof.
  destruct sessionId; simpl; try (split; [done | by intros [? _]]).
  split.
  - intros H. apply fmap_Some in H as (x & Hx & [= -> ->]). done.
  - intros [[= ->] ->]. done.
Qed.

Lemma sessions_get_JStr key sessions session :
  sessions !! key = Some session →
  sessions_get (JStr key) sessions = Some (key, session).
Proof. intros H. by apply sessions_get_Some. Qed.

Lemma sessions_get_None sessionId sessions :
  sessions_get sessionId sessions = None ↔
  ∀ key, sessionId = JStr key → sessions !! key = None.
Proof.
  destruct sessionId; simpl; try (split; [by intros _ ? [=] | done]).
  rewrite fmap_None. split.
  - by intros H key [= <-].
  - intros H. by apply H.
Qed.

Lemma truthy_JStr key : truthy (JStr key) = true ↔ key ≠ "".
Proof.
  simpl. rewrite negb_true_iff. apply String.eqb_neq.
Qed.

Lemma js_not_false v : js_not v = false ↔ truthy v = true.
Proof. unfold js_not. apply negb_false_iff. Qed.

(** The falsy values of the model. *)
Lemma js_not_true v :
  js_not v = true ↔
  v ∈ [JUndefined; JNull; JBool false; JNum 0; JNaN; JStr ""].
Proof.
  unfold js_not. rewrite negb_true_iff. split.
  - destruct v as [| |[]|n| |negative|s]; simpl; intros H; try done;
      try (repeat constructor; fail).
    + apply negb_false_iff, Z.eqb_eq in H as ->. repeat constructor.
    + apply negb_false_iff, String.eqb_eq in H as ->. repeat constructor.
  - intros H. repeat (apply elem_of_cons in H as [-> | H]; [done |]).
    by apply elem_of_nil in H.
Qed.

(** The fold of the cleanup, with the map being traversed and the map being
    updated kept apart. *)
Lemma sweep_fold_lookup now (visited acc : gmap string Session) key :
  map_fold (λ sessionId session acc,
              if expired now session then delete sessionId acc else acc)
           acc visited !! key =
  match visited !! key with
  | Some session => if expired now session then None else acc !! key
  | None => acc !! key
  end.
Proof.
  revert key.
  apply (map_fold_weak_ind (λ r m, ∀ key, r !! key =
           match m !! key with
           | Some session => if expired now session then None else acc !! key
           | None => acc !! key
           end)).
  - intros key. by rewrite lookup_empty.
  - intros i x m r Hi IH key.
    destruct (decide (i = key)) as [-> | Hne].
    + rewrite lookup_insert_eq. specialize (IH key). rewrite Hi in IH.
      destruct (expired now x); [apply lookup_delete_eq | done].
    + rewrite lookup_insert_ne by done.
      destruct (expired now x); [rewrite lookup_delete_ne by done |]; apply IH.
Qed.

Lemma sweep_lookup now sessions key :
  sweep now sessions !! key =
  match sessions !! key with
  | Some session => if expired now session then None else Some session
  | None => None
  end.
Proof.
  unfold sweep. rewrite sweep_fold_lookup.
  destruct (sessions !! key) eqn:E; done.
Qed.

(** C9: the cleanup removes exactly the records idle for more than 1800
    seconds (1 800 000 ms) and keeps every other record as it was: after the
    sweep a key holds nothing if its record was idle for longer, and holds
    what it held before otherwise.  A record idle for 1 799 000 ms is among
    those kept. *)
Theorem sweep_removes_exactly_idle now (sessions : gmap string Session) key :
  sweep now sessions !! key =
    match sessions !! key with
    | Some session =>
        if decide (now - lastActivity session > 1800 * 1000) then None
        else Some session
    | None => None
    end
  ∧ sweep now sessions =
      filter (λ entry, now - lastActivity entry.2 ≤ 1800 * 1000) sessions.
Proof.
  assert (Hk : ∀ k, sweep now sessions !! k =
    match sessions !! k with
    | Some session =>
        if decide (now - lastActivity session > 1800 * 1000) then None
        else Some session
    | None => None
    end).
  { intros k. rewrite sweep_lookup. destruct (sessions !! k) as [s|]; [|done].
    unfold expired, IDLE_MS. case_decide; destruct (Z.ltb_spec (30 * 60 * 1000)
      (now - lastActivity s)); (done || lia). }
  split; [apply Hk |].
  apply map_eq. intros k. rewrite Hk, map_lookup_filter.
  destruct (sessions !! k) as [s|]; simpl; [|done].
  case_decide; case_guard; simpl in *; (done || lia).
Qed.

Example sweep_1800001_and_1799000 :
  let fresh la := {| businessType := JNull; answers := []; lastActivity := la |} in
  let sessions := <["old" := fresh 0]> (<["recent" := fresh 1001]> ∅) in
  sweep 1800001 sessions !! "old" = None
  ∧ sweep 1800001 sessions !! "recent" = Some (fresh 1001).
Proof. split; vm_compute; reflexivity. Qed.

Lemma strict_eq_1 v : strict_eq v (JNum 1) = bool_decide (v = JNum 1).
Proof. by destruct v. Qed.



(** ** /api/next-question *)

Section NextQuestion.

Variable string_ge : string → Z → bool.

Implicit Types (gen : Generator) (now : Z) (sessions : gmap string Session).
Implicit Types (sessionId selectedAnswer questionNumber : JsVal).

Lemma next_question_invalid gen now sessionId selectedAnswer questionNumber
    sessions :
  js_not sessionId = true ∨ js_not selectedAnswer = true
    ∨ js_not questionNumber = true →
  next_question string_ge gen now sessionId selectedAnswer questionNumber
    sessions
  = (Failure 400 "Missing sessionId, selectedAnswer, or questionNumber",
     sessions).
Proof.
  intros H. unfold next_question.
  destruct (js_not sessionId), (js_not selectedAnswer),
    (js_not questionNumber); try done.
  by destruct H as [? | [? | ?]].
Qed.

Lemma next_question_unknown gen now sessionId selectedAnswer questionNumber
    sessions :
  truthy sessionId = true → truthy selectedAnswer = true →
  truthy questionNumber = true →
  sessions_get sessionId sessions = None →
  next_question string_ge gen now sessionId selectedAnswer questionNumber
    sessions
  = (Failure 404 "Session not found or expired", sessions).
Proof.
  intros H1 H2 H3 Hget. unfold next_question, js_not.
  by rewrite H1, H2, H3, Hget.
Qed.

Lemma next_question_accepted gen now key selectedAnswer questionNumber
    sessions session :
  key ≠ "" → truthy selectedAnswer = true → truthy questionNumber = true →
  sessions !! key = Some session →
  next_question string_ge gen now (JStr key) selectedAnswer questionNumber
    sessions
  = (let session' := record_answer now selectedAnswer questionNumber session in
     (question_response string_ge gen session' questionNumber,
      <[key := session']> sessions)).
Proof.
  intros H1%truthy_JStr H2 H3 Hget. unfold next_question, js_not.
  rewrite H1, H2, H3, (sessions_get_JStr _ _ _ Hget). simpl.
  unfold question_response.
  by destruct (first_content _).
Qed.

(** C8: a request in which one of the three fields is missing, empty or
    zero (a falsy value) is answered 400 and the session map is what it
    was; a request with all three present whose sessionId is no key of the
    map is answered 404 and the session map is what it was. *)
Theorem next_question_rejections gen now sessionId selectedAnswer
    questionNumber sessions :
  (truthy sessionId = false ∨ truthy selectedAnswer = false
     ∨ truthy questionNumber = false →
   next_question string_ge gen now sessionId selectedAnswer questionNumber
     sessions
   = (Failure 400 "Missing sessionId, selectedAnswer, or questionNumber",
      sessions))
  ∧ (truthy sessionId = true → truthy selectedAnswer = true →
     truthy questionNumber = true →
     (∀ key, sessionId = JStr key → sessions !! key = None) →
     next_question string_ge gen now sessionId selectedAnswer questionNumber
       sessions
     = (Failure 404 "Session not found or expired", sessions)).
Proof.
  split.
  - intros H. apply next_question_invalid. unfold js_not.
    destruct H as [-> | [-> | ->]]; auto.
  - intros H1 H2 H3 Habsent. apply next_question_unknown; try done.
    by apply sessions_get_None.
Qed.


(** C4 as amended: when a call with the number n as questionNumber
    succeeds, the question it returns is marked complete exactly when n is
    at least 5, and for n an integer from -2^53 to 2^53 - 1 it carries the
    number n + 1. *)
Theorem next_question_number_and_completion gen now sessionId selectedAnswer
    (n : Z) sessions q sessions' :
  next_question string_ge gen now sessionId selectedAnswer (JNum n) sessions
    = (Success (QuestionData q), sessions') →
  (isComplete q = true ↔ 5 ≤ n)
  ∧ (- 2 ^ 53 ≤ n < 2 ^ 53 → questionNumber q = JNum (n + 1)).
Proof.
  unfold next_question.
  destruct (js_not sessionId || js_not selectedAnswer || js_not (JNum n));
    [done |].
  destruct (sessions_get sessionId sessions) as [[key session]|]; [|done].
  destruct (first_content _); [|done].
  intros [= <- _]. simpl. split; [apply Z.leb_le |].
  intros Hn. apply js_number_safe. lia.
Qed.

End NextQuestion.

(** C4 as stated fails: at 2^53 the sum is rounded back to 2^53, and a
    questionNumber sent as the string "5" (which the comparison with 5 takes
    as the number 5) comes back as the string "51". *)
Lemma next_question_number_not_incremented :
  let session := {| businessType := JStr "A. Retail";
                    answers := ["Question 1: A. Retail"];
                    lastActivity := 0 |} in
  let gen : Generator := λ _ _, ApiResponse [Some "Q"] in
  (next_question (λ _ _, true) gen 7 (JStr "id") (JStr "D. Never")
     (JNum 9007199254740992) {["id" := session]}).1
  = Success (QuestionData
      {| question := "Q"; options := [];
         questionNumber := JNum 9007199254740992; isComplete := true |})
  ∧ (next_question (λ _ _, true) gen 7 (JStr "id") (JStr "D. Never")
       (JStr "5") {["id" := session]}).1
    = Success (QuestionData
        {| question := "Q"; options := [];
           questionNumber := JStr "51"; isComplete := true |}).
Proof. split; vm_compute; reflexivity. Qed.

(** A questionNumber sent as a string is concatenated, not incremented. *)
Example next_question_string_number :
  let '(_, sessions) := start_assessment "id" 0 ∅ in
  (next_question (λ _ _, false) (λ _ _, ApiResponse [Some "Q"]) 1
     (JStr "id") (JStr "A. Retail and E-commerce") (JStr "3") sessions).1
  = Success (QuestionData
      {| question := "Q"; options := []; questionNumber := JStr "31";
         isComplete := false |}).
Proof. vm_compute. reflexivity. Qed.

(** ** /api/generate-report *)

Section GenerateReport.

Implicit Types (gen : Generator) (now : Z) (sessions : gmap string Session).

Lemma generate_report_found gen now key sessions session :
  key ≠ "" → sessions !! key = Some session →
  generate_report gen now (JStr key) sessions
  = report_outcome key now session sessions
      (gen (report_prompt session) 500).
Proof.
  intros Hk%truthy_JStr Hget. unfold generate_report, js_not, report_outcome.
  rewrite Hk, (sessions_get_JStr _ _ _ Hget). simpl.
  change (report_prompt (touch now session)) with (report_prompt session).
  destruct (first_content _); [|done].
  by rewrite delete_insert_eq.
Qed.

Lemma generate_report_unknown gen now key sessions :
  key ≠ "" → sessions !! key = None →
  generate_report gen now (JStr key) sessions
  = (Failure 404 "Session not found or expired", sessions).
Proof.
  intros Hk%truthy_JStr Hget. unfold generate_report, js_not.
  rewrite Hk. simpl. by rewrite Hget.
Qed.

(** C2: for a session in the map, a call in which the generator succeeds
    returns the report parsed from the generated text and leaves the map
    without the session; any call that follows with the same id is
    answered 404. *)
Theorem report_is_one_shot gen now key sessions session content :
  key ≠ "" → sessions !! key = Some session →
  first_content (gen (report_prompt session) 500) = Some content →
  generate_report gen now (JStr key) sessions
    = (Success (ReportData (parse_report (trim content))),
       delete key sessions)
  ∧ delete key sessions !! key = None
  ∧ ∀ gen' now',
      generate_report gen' now' (JStr key) (delete key sessions)
      = (Failure 404 "Session not found or expired", delete key sessions).
Proof.
  intros Hk Hget Hgen. split; [| split].
  - rewrite (generate_report_found _ _ _ _ _ Hk Hget).
    unfold report_outcome. by rewrite Hgen.
  - apply lookup_delete_eq.
  - intros gen' now'. apply generate_report_unknown; [done |].
    apply lookup_delete_eq.
Qed.

(** C7 as amended: for a session in the map, a call in which the generator
    fails is answered 500; the session stays in the map with its
    businessType and answers as they were and its lastActivity set to the
    time of the call, no other key changes, and a later call with the same
    id finds the session (it is not answered 404). *)
Theorem failed_report_keeps_session gen now key sessions session :
  key ≠ "" → sessions !! key = Some session →
  first_content (gen (report_prompt session) 500) = None →
  ∃ session',
    generate_report gen now (JStr key) sessions
      = (Failure 500 "Failed to generate report",
         <[key := session']> sessions)
    ∧ businessType session' = businessType session
    ∧ answers session' = answers session
    ∧ lastActivity session' = now
    ∧ ∀ gen' now',
        status (generate_report gen' now' (JStr key)
                  (<[key := session']> sessions)).1 ≠ 404.
Proof.
  intros Hk Hget Hgen. exists (touch now session).
  split; [| repeat split].
  - rewrite (generate_report_found _ _ _ _ _ Hk Hget).
    unfold report_outcome. by rewrite Hgen.
  - intros gen' now'.
    rewrite (generate_report_found _ _ _ _ (touch now session) Hk)
      by apply lookup_insert_eq.
    unfold report_outcome. destruct (first_content (gen' _ _)); simpl; lia.
Qed.

(** C10: for a session in the map, whatever its stored fields are, the
    call builds the report prompt from the answers, invokes the generator
    on it with a limit of 500 tokens, and its result is what the outcome of
    that invocation determines; it is never answered 400 or 404.  A record
    as start-assessment creates it (businessType null, no answers) is no
    exception. *)
Theorem report_accepts_any_session gen now key sessions session :
  key ≠ "" → sessions !! key = Some session →
  generate_report gen now (JStr key) sessions
    = report_outcome key now session sessions
        (gen ("Analyze responses: " +:+ join "; " (answers session)
              +:+ ". Create chaos score 1-100 and identify top 3 operational issues and provide actionable recommendations for each.")
             500)
  ∧ status (generate_report gen now (JStr key) sessions).1 ≠ 400
  ∧ status (generate_report gen now (JStr key) sessions).1 ≠ 404.
Proof.
  intros Hk Hget.
  rewrite (generate_report_found _ _ _ _ _ Hk Hget).
  split; [done |].
  unfold report_outcome. destruct (first_content _); simpl; lia.
Qed.

End GenerateReport.

(** C7 as stated fails: after a call in which the generator fails, the
    record of the session is not the record that was there before. *)
Lemma failed_report_touches_session :
  let session :=
    {| businessType := JStr "A. Retail and E-commerce";
       answers := ["Question 1: A. Retail and E-commerce"];
       lastActivity := 0 |} in
  let sessions : gmap string Session := {["id" := session]} in
  let result := generate_report (λ _ _, ApiError) 5000 (JStr "id") sessions in
  status result.1 = 500
  ∧ result.2 !! "id" =
      Some {| businessType := JStr "A. Retail and E-commerce";
              answers := ["Question 1: A. Retail and E-commerce"];
              lastActivity := 5000 |}
  ∧ result.2 !! "id" ≠ Some session.
Proof. vm_compute. repeat split; congruence. Qed.

(** ** A whole assessment *)

Section Assessment.

Variable string_ge : string → Z → bool.

Lemma answer_turns_length sessionId n turns sessions :
  length (answer_turns string_ge sessionId n turns sessions).1 = length turns.
Proof.
  revert n sessions. induction turns as [| t rest IH]; intros n sessions;
    simpl; [done |].
  destruct (next_question _ _ _ _ _ _ _) as [r sessions'].
  specialize (IH (n + 1) sessions').
  destruct (answer_turns _ _ _ rest sessions'). simpl in *. by rewrite IH.
Qed.

Lemma answer_turns_keep_session key n turns sessions session :
  key ≠ "" → 0 < n → sessions !! key = Some session →
  Forall valid_turn turns →
  Forall (λ r, status r = 200)
    (answer_turns string_ge (JStr key) n turns sessions).1
  ∧ is_Some ((answer_turns string_ge (JStr key) n turns sessions).2 !! key).
Proof.
  intros Hk Hn Hget Hturns. revert n sessions session Hn Hget.
  induction Hturns as [| t rest [Hgen Hans] _ IH];
    intros n sessions session Hn Hget; simpl.
  - split; [constructor | by eexists].
  - assert (Hq : truthy (JNum n) = true).
    { simpl. apply negb_true_iff, Z.eqb_neq. lia. }
    rewrite (next_question_accepted _ _ _ _ _ _ _ _ Hk Hans Hq Hget).
    simpl.
    set (session' := record_answer _ _ _ _).
    destruct (IH (n + 1) (<[key := session']> sessions) session')
      as [Hall Hsome]; [lia | apply lookup_insert_eq |].
    destruct (answer_turns _ _ _ rest _) as [responses sessions'].
    simpl in *. split; [| done].
    constructor; [| done].
    unfold question_response.
    by destruct (Hgen (question_prompt session') 200) as [c ->].
Qed.

(** C1: start-assessment, then five next-question calls numbered 1 to 5
    with present answers and a generator that succeeds, then
    generate-report with a generator that succeeds: every call is answered
    200, the report call included, and afterwards the session id is no key
    of the session map. *)
Theorem assessment_run_closes_session uuid t0 sessions turns genR tR :
  uuid ≠ "" → length turns = 5%nat → Forall valid_turn turns →
  succeeds genR →
  let started := start_assessment uuid t0 sessions in
  let answered := answer_turns string_ge (JStr uuid) 1 turns started.2 in
  let reported := generate_report genR tR (JStr uuid) answered.2 in
  status started.1 = 200
  ∧ Forall (λ r, status r = 200) answered.1
  ∧ length answered.1 = 5%nat
  ∧ (∃ report, reported.1 = Success (ReportData report))
  ∧ reported.2 !! uuid = None.
Proof.
  intros Hk Hlen Hturns HgenR. simpl.
  set (fresh := {| businessType := JNull; answers := []; lastActivity := t0 |}).
  destruct (answer_turns_keep_session uuid 1 turns (<[uuid := fresh]> sessions)
              fresh Hk ltac:(lia) (lookup_insert_eq _ _ _) Hturns)
    as [Hall [session' Hget]].
  split; [done |]. split; [done |]. split.
  - by rewrite answer_turns_length.
  - rewrite (generate_report_found _ _ _ _ _ Hk Hget). unfold report_outcome.
    destruct (HgenR (report_prompt session') 500) as [c ->]. simpl.
    split; [by eexists | apply lookup_delete_eq].
Qed.

End Assessment.

(** ** Worked instances *)

Lemma next_question_rejections_witness :
  next_question (λ _ _, false) (λ _ _, ApiError) 7
    (JStr "id") (JStr "") (JNum 1) ∅
  = (Failure 400 "Missing sessionId, selectedAnswer, or questionNumber", ∅)
  ∧ next_question (λ _ _, false) (λ _ _, ApiError) 7
      (JStr "id") (JStr "B. Service") (JNum 1) ∅
    = (Failure 404 "Session not found or expired", ∅).
Proof.
  split.
  - apply (proj1 (next_question_rejections (λ _ _, false) (λ _ _, ApiError) 7
                    (JStr "id") (JStr "") (JNum 1) ∅)).
    right. left. reflexivity.
  - apply (proj2 (next_question_rejections (λ _ _, false) (λ _ _, ApiError) 7
                    (JStr "id") (JStr "B. Service") (JNum 1) ∅));
      [reflexivity | reflexivity | reflexivity |].
    intros key _. apply lookup_empty.
Defined.


Lemma next_question_number_and_completion_witness :
  let q := {| question := "Q"; options := []; questionNumber := JNum 6;
              isComplete := true |} in
  (isComplete q = true ↔ 5 ≤ 5) ∧ questionNumber q = JNum (5 + 1).
Proof.
  intros q.
  destruct (next_question_number_and_completion (λ _ _, false)
              (λ _ _, ApiResponse [Some "Q"]) 7 (JStr "id") (JStr "D. Never")
              5
              {["id" := {| businessType := JStr "A"; answers := [];
                           lastActivity := 0 |}]}
              q
              {["id" := {| businessType := JStr "A";
                           answers := ["Question 5: D. Never"];
                           lastActivity := 7 |}]})
    as [Hcomplete Hnumber].
  - vm_compute. reflexivity.
  - split; [exact Hcomplete |]. apply Hnumber. lia.
Defined.

Lemma report_is_one_shot_witness :
  let session := {| businessType := JStr "A"; answers := ["Question 1: A"];
                    lastActivity := 0 |} in
  let sessions : gmap string Session := {["id" := session]} in
  let gen : Generator := λ _ _, ApiResponse [Some "Chaos score: 73"] in
  generate_report gen 9 (JStr "id") sessions
    = (Success (ReportData (parse_report (trim "Chaos score: 73"))),
       delete "id" sessions)
  ∧ delete "id" sessions !! "id" = None
  ∧ ∀ gen' now',
      generate_report gen' now' (JStr "id") (delete "id" sessions)
      = (Failure 404 "Session not found or expired", delete "id" sessions).
Proof.
  intros session sessions gen.
  apply (report_is_one_shot gen 9 "id" sessions session "Chaos score: 73");
    [done | apply lookup_singleton_eq | reflexivity].
Defined.

Lemma failed_report_keeps_session_witness :
  let session := {| businessType := JStr "A"; answers := ["Question 1: A"];
                    lastActivity := 0 |} in
  let sessions : gmap string Session := {["id" := session]} in
  ∃ session',
    generate_report (λ _ _, ApiError) 9 (JStr "id") sessions
      = (Failure 500 "Failed to generate report", <["id" := session']> sessions)
    ∧ businessType session' = JStr "A"
    ∧ answers session' = ["Question 1: A"]
    ∧ lastActivity session' = 9
    ∧ ∀ gen' now',
        status (generate_report gen' now' (JStr "id")
                  (<["id" := session']> sessions)).1 ≠ 404.
Proof.
  intros session sessions.
  apply (failed_report_keeps_session (λ _ _, ApiError) 9 "id" sessions session);
    [done | apply lookup_singleton_eq | reflexivity].
Defined.

Lemma report_accepts_any_session_witness :
  let fresh := {| businessType := JNull; answers := []; lastActivity := 0 |} in
  let sessions := (start_assessment "id" 0 ∅).2 in
  let gen : Generator := λ _ _, ApiResponse [Some "Chaos score: 73"] in
  generate_report gen 9 (JStr "id") sessions
    = report_outcome "id" 9 fresh sessions
        (gen ("Analyze responses: " +:+ join "; " []
              +:+ ". Create chaos score 1-100 and identify top 3 operational issues and provide actionable recommendations for each.")
             500)
  ∧ status (generate_report gen 9 (JStr "id") sessions).1 ≠ 400
  ∧ status (generate_report gen 9 (JStr "id") sessions).1 ≠ 404.
Proof.
  apply (report_accepts_any_session
           (λ _ _, ApiResponse [Some "Chaos score: 73"]) 9 "id"
           (start_assessment "id" 0 ∅).2
           {| businessType := JNull; answers := []; lastActivity := 0 |});
    [done | apply lookup_insert_eq].
Defined.

Lemma assessment_run_closes_session_witness :
  let gen : Generator := λ _ _, ApiResponse [Some "Q"] in
  let turns :=
    (λ a, {| turn_gen := gen; turn_now := 5; turn_answer := JStr a |})
      <$> ["A. Retail and E-commerce"; "B. Weekly"; "C. Sometimes";
           "D. Never"; "A. Daily"] in
  let started := start_assessment "id" 0 ∅ in
  let answered := answer_turns (λ _ _, false) (JStr "id") 1 turns started.2 in
  let reported := generate_report gen 9 (JStr "id") answered.2 in
  status started.1 = 200
  ∧ Forall (λ r, status r = 200) answered.1
  ∧ length answered.1 = 5%nat
  ∧ (∃ report, reported.1 = Success (ReportData report))
  ∧ reported.2 !! "id" = None.
Proof.
  apply (assessment_run_closes_session (λ _ _, false) "id" 0 ∅);
    [done | reflexivity | | by eexists].
  repeat constructor; by eexists.
Defined.

(** * Further properties *)

(** ** The handlers and the session map *)

Section HandlerFrames.

Variable string_ge : string → Z → bool.

Implicit Types (gen : Generator) (now : Z) (sessions : gmap string Session).
Implicit Types (sessionId selectedAnswer questionNumber : JsVal).

(** The session map after a next-question call, in all cases. *)
Lemma next_question_store gen now sessionId selectedAnswer questionNumber
    sessions :
  (next_question string_ge gen now sessionId selectedAnswer questionNumber
     sessions).2
  = if js_not sessionId || js_not selectedAnswer || js_not questionNumber
    then sessions
    else match sessions_get sessionId sessions with
         | Some (key, session) =>
             <[key := record_answer now selectedAnswer questionNumber session]>
               sessions
         | None => sessions
         end.
Proof.
  unfold next_question.
  destruct (js_not sessionId || js_not selectedAnswer || js_not questionNumber);
    [done |].
  destruct (sessions_get sessionId sessions) as [[key session]|]; [| done].
  by destruct (first_content _).
Qed.

(** The session map after a generate-report call, in all cases. *)
Lemma generate_report_store gen now sessionId sessions :
  (generate_report gen now sessionId sessions).2
  = if js_not sessionId then sessions
    else match sessions_get sessionId sessions with
         | Some (key, session) =>
             match first_content (gen (report_prompt session) 500) with
             | Some _ => delete key sessions
             | None => <[key := touch now session]> sessions
             end
         | None => sessions
         end.
Proof.
  unfold generate_report. destruct (js_not sessionId); [done |].
  destruct (sessions_get sessionId sessions) as [[key session]|]; [| done].
  change (report_prompt (touch now session)) with (report_prompt session).
  destruct (first_content _); [| done].
  simpl. apply delete_insert_eq.
Qed.

(** X1: when the generator fails in an accepted next-question call, the
    call is answered 500 and the answer it carried stays recorded; sending
    the same request again records the same entry a second time. *)
Theorem failed_question_keeps_answer gen gen' now now' key selectedAnswer
    questionNumber sessions session :
  key ≠ "" → truthy selectedAnswer = true → truthy questionNumber = true →
  sessions !! key = Some session →
  first_content
    (gen (question_prompt
            (record_answer now selectedAnswer questionNumber session)) 200)
    = None →
  let entry := answer_entry questionNumber selectedAnswer in
  let first := next_question string_ge gen now (JStr key) selectedAnswer
                 questionNumber sessions in
  let again := next_question string_ge gen' now' (JStr key) selectedAnswer
                 questionNumber first.2 in
  first.1 = Failure 500 "Failed to generate next question"
  ∧ answers <$> first.2 !! key = Some (answers session ++ [entry])%list
  ∧ answers <$> again.2 !! key = Some (answers session ++ [entry; entry])%list.
Proof.
  intros Hk Ha Hq Hget Hgen. simpl.
  rewrite (next_question_accepted _ _ _ _ _ _ _ _ Hk Ha Hq Hget). simpl.
  split; [unfold question_response; by rewrite Hgen |].
  rewrite lookup_insert_eq. split; [done |].
  rewrite (next_question_accepted _ gen' now' key _ _ _ _ Hk Ha Hq
             (lookup_insert_eq _ _ _)). simpl.
  rewrite lookup_insert_eq. simpl. by rewrite <- (assoc_L (++)).
Qed.

(** X3: a next-question call, whatever its fields and whatever the
    generator does, neither adds nor removes a key of the session map, and
    leaves the record under every key other than its sessionId as it was. *)
Theorem next_question_keeps_keys gen now sessionId selectedAnswer
    questionNumber sessions :
  dom (next_question string_ge gen now sessionId selectedAnswer questionNumber
         sessions).2 = dom sessions
  ∧ ∀ key, sessionId ≠ JStr key →
      (next_question string_ge gen now sessionId selectedAnswer
         questionNumber sessions).2 !! key = sessions !! key.
Proof.
  rewrite next_question_store.
  destruct (js_not sessionId || js_not selectedAnswer || js_not questionNumber);
    [done |].
  destruct (sessions_get sessionId sessions) as [[k session]|] eqn:Hget;
    [| done].
  apply sessions_get_Some in Hget as [-> Hget]. split.
  - apply dom_insert_lookup_L. by eexists.
  - intros key Hne. apply lookup_insert_ne. congruence.
Qed.

End HandlerFrames.

Lemma failed_question_keeps_answer_witness :
  let fresh := {| businessType := JNull; answers := []; lastActivity := 0 |} in
  let sessions : gmap string Session := {["id" := fresh]} in
  let entry := answer_entry (JNum 1) (JStr "B. Service") in
  let first := next_question (λ _ _, false) (λ _ _, ApiError) 7 (JStr "id")
                 (JStr "B. Service") (JNum 1) sessions in
  let again := next_question (λ _ _, false) (λ _ _, ApiResponse [Some "Q"]) 8
                 (JStr "id") (JStr "B. Service") (JNum 1) first.2 in
  first.1 = Failure 500 "Failed to generate next question"
  ∧ answers <$> first.2 !! "id" = Some (answers fresh ++ [entry])%list
  ∧ answers <$> again.2 !! "id" = Some (answers fresh ++ [entry; entry])%list.
Proof.
  intros fresh sessions.
  apply (failed_question_keeps_answer (λ _ _, false) (λ _ _, ApiError)
           (λ _ _, ApiResponse [Some "Q"]) 7 8 "id" (JStr "B. Service")
           (JNum 1) sessions fresh);
    [done | reflexivity | reflexivity | apply lookup_singleton_eq | reflexivity].
Defined.

Lemma next_question_keeps_keys_witness :
  let sessions : gmap string Session :=
    {["id" := {| businessType := JNull; answers := []; lastActivity := 0 |}]} in
  (next_question (λ _ _, false) (λ _ _, ApiError) 7 (JStr "other")
     (JStr "B. Service") (JNum 1) sessions).2 !! "id"
  = sessions !! "id".
Proof.
  intros sessions.
  apply (proj2 (next_question_keeps_keys (λ _ _, false) (λ _ _, ApiError) 7
                  (JStr "other") (JStr "B. Service") (JNum 1) sessions) "id").
  discriminate.
Defined.

(** X2: generate-report with a missing sessionId (any falsy value) is
    answered 400, and with a sessionId that is no key of the session map (a
    value that is not a string never is one) it is answered 404; in both
    cases the session map is what it was and the generator is not consulted. *)
Theorem generate_report_rejections (gen : Generator) (now : Z)
    (sessionId : JsVal) (sessions : gmap string Session) :
  (truthy sessionId = false →
   generate_report gen now sessionId sessions
   = (Failure 400 "Missing sessionId", sessions))
  ∧ (truthy sessionId = true →
     (∀ key, sessionId = JStr key → sessions !! key = None) →
     generate_report gen now sessionId sessions
     = (Failure 404 "Session not found or expired", sessions)).
Proof.
  unfold generate_report, js_not. split.
  - by intros ->.
  - intros -> Habsent%sessions_get_None. by rewrite Habsent.
Qed.

Lemma generate_report_rejections_witness :
  let sessions : gmap string Session :=
    {["id" := {| businessType := JNull; answers := []; lastActivity := 0 |}]} in
  generate_report (λ _ _, ApiResponse [Some "Chaos score: 73"]) 7 JUndefined
    sessions
  = (Failure 400 "Missing sessionId", sessions)
  ∧ generate_report (λ _ _, ApiResponse [Some "Chaos score: 73"]) 7 (JNum 12)
      sessions
    = (Failure 404 "Session not found or expired", sessions).
Proof.
  intros sessions. split.
  - by apply (proj1 (generate_report_rejections _ 7 JUndefined sessions)).
  - apply (proj2 (generate_report_rejections _ 7 (JNum 12) sessions));
      [reflexivity | discriminate].
Defined.

(** X4: generate-report never edits what a session has recorded: a record
    found in the session map after the call was there before the call with
    the same businessType and the same answers, and it is either that very
    record or that record with lastActivity set to the time of the call. *)
Theorem generate_report_never_edits_answers (gen : Generator) (now : Z)
    (sessionId : JsVal) (sessions : gmap string Session) key session' :
  (generate_report gen now sessionId sessions).2 !! key = Some session' →
  ∃ session,
    sessions !! key = Some session
    ∧ businessType session' = businessType session
    ∧ answers session' = answers session
    ∧ (session' = session ∨ lastActivity session' = now).
Proof.
  rewrite generate_report_store.
  destruct (js_not sessionId); [by eauto 6 |].
  destruct (sessions_get sessionId sessions) as [[k session]|] eqn:Hget;
    [| by eauto 6].
  apply sessions_get_Some in Hget as [-> Hget].
  destruct (first_content _).
  - intros [Hne H]%lookup_delete_Some. by eauto 6.
  - intros [[<- <-] | [Hne H]]%lookup_insert_Some; [| by eauto 6].
    exists session. by eauto.
Qed.

Lemma generate_report_never_edits_answers_witness :
  let session := {| businessType := JStr "A"; answers := ["Question 1: A"];
                    lastActivity := 0 |} in
  ∃ before,
    ({["id" := session]} : gmap string Session) !! "id" = Some before
    ∧ businessType (touch 9 session) = businessType before
    ∧ answers (touch 9 session) = answers before
    ∧ (touch 9 session = before ∨ lastActivity (touch 9 session) = 9).
Proof.
  intros session.
  apply (generate_report_never_edits_answers (λ _ _, ApiError) 9 (JStr "id")
           {["id" := session]} "id" (touch 9 session)).
  vm_compute. reflexivity.
Defined.

(** ** The cleanup and the handlers *)

(** X5: two sweeps in a row amount to one sweep at the later of the two
    times; in particular a second sweep at the same time changes nothing. *)
Theorem sweep_twice now1 now2 (sessions : gmap string Session) :
  sweep now2 (sweep now1 sessions) = sweep (now1 `max` now2) sessions
  ∧ sweep now1 (sweep now1 sessions) = sweep now1 sessions.
Proof.
  assert (H : ∀ a b, sweep b (sweep a sessions) = sweep (a `max` b) sessions).
  { intros a b. apply map_eq. intros key. rewrite !sweep_lookup.
    destruct (sessions !! key) as [session|]; [| done].
    unfold expired.
    destruct (Z.ltb_spec IDLE_MS (a - lastActivity session));
      destruct (Z.ltb_spec IDLE_MS (a `max` b - lastActivity session));
      destruct (Z.ltb_spec IDLE_MS (b - lastActivity session));
      simpl; unfold expired;
      repeat match goal with
             | |- context [IDLE_MS <? ?x] => destruct (Z.ltb_spec IDLE_MS x)
             end;
      first [done | lia]. }
  split; [apply H |]. by rewrite H, Z.max_id.
Qed.

(** X6: a session started at time [now] is in the session map, as a record
    with no businessType and no answers, after every sweep that runs at most
    1 800 000 ms later, and in none after a sweep that runs later than that. *)
Theorem started_session_and_sweep uuid now now'
    (sessions : gmap string Session) :
  sweep now' (start_assessment uuid now sessions).2 !! uuid
  = if decide (now' - now ≤ 1800 * 1000)
    then Some {| businessType := JNull; answers := []; lastActivity := now |}
    else None.
Proof.
  rewrite sweep_lookup. simpl. rewrite lookup_insert_eq.
  unfold expired, IDLE_MS. simpl.
  case_decide; destruct (Z.ltb_spec (30 * 60 * 1000) (now' - now));
    (done || lia).
Qed.

Section CleanupAndHandlers.

Variable string_ge : string → Z → bool.

(** X7: an accepted next-question call keeps its session alive: however
    long the session had been idle, the record the call leaves is still in
    the session map after any sweep that runs at most 1 800 000 ms after the
    call. *)
Theorem answered_session_survives_sweep gen now now' key selectedAnswer
    questionNumber (sessions : gmap string Session) session :
  key ≠ "" → truthy selectedAnswer = true → truthy questionNumber = true →
  sessions !! key = Some session →
  now' - now ≤ 1800 * 1000 →
  sweep now'
    (next_question string_ge gen now (JStr key) selectedAnswer questionNumber
       sessions).2 !! key
  = Some (record_answer now selectedAnswer questionNumber session).
Proof.
  intros Hk Ha Hq Hget Hlate.
  rewrite (next_question_accepted _ _ _ _ _ _ _ _ Hk Ha Hq Hget). simpl.
  rewrite sweep_lookup, lookup_insert_eq. unfold expired, IDLE_MS. simpl.
  destruct (Z.ltb_spec (30 * 60 * 1000) (now' - now)); (done || lia).
Qed.

(** X8: a session that a sweep finds idle for more than 1 800 000 ms is
    gone for the handlers: after the sweep a next-question call with all its
    fields present and a generate-report call, both with that id, are
    answered 404 and leave the session map as the sweep left it. *)
Theorem swept_session_not_found gen now now' key selectedAnswer questionNumber
    (sessions : gmap string Session) session :
  key ≠ "" → truthy selectedAnswer = true → truthy questionNumber = true →
  sessions !! key = Some session →
  now - lastActivity session > 1800 * 1000 →
  next_question string_ge gen now' (JStr key) selectedAnswer questionNumber
    (sweep now sessions)
  = (Failure 404 "Session not found or expired", sweep now sessions)
  ∧ generate_report gen now' (JStr key) (sweep now sessions)
    = (Failure 404 "Session not found or expired", sweep now sessions).
Proof.
  intros Hk Ha Hq Hget Hidle.
  assert (Hgone : sweep now sessions !! key = None).
  { rewrite sweep_lookup, Hget. unfold expired, IDLE_MS.
    destruct (Z.ltb_spec (30 * 60 * 1000) (now - lastActivity session));
      (done || lia). }
  split.
  - apply next_question_unknown; try done; [by apply truthy_JStr |].
    simpl. by rewrite Hgone.
  - by apply generate_report_unknown.
Qed.

End CleanupAndHandlers.

Lemma answered_session_survives_sweep_witness :
  let session := {| businessType := JNull; answers := [];
                    lastActivity := 0 |} in
  sweep 9000000
    (next_question (λ _ _, false) (λ _ _, ApiError) 8000000 (JStr "id")
       (JStr "B. Service") (JNum 1) {["id" := session]}).2 !! "id"
  = Some (record_answer 8000000 (JStr "B. Service") (JNum 1) session).
Proof.
  intros session.
  apply (answered_session_survives_sweep (λ _ _, false) (λ _ _, ApiError)
           8000000 9000000 "id" (JStr "B. Service") (JNum 1)
           {["id" := session]} session);
    [done | reflexivity | reflexivity | apply lookup_singleton_eq | lia].
Defined.

Lemma swept_session_not_found_witness :
  let session := {| businessType := JNull; answers := [];
                    lastActivity := 0 |} in
  let sessions : gmap string Session := {["id" := session]} in
  let gen : Generator := λ _ _, ApiResponse [Some "Q"] in
  next_question (λ _ _, false) gen 1800002 (JStr "id") (JStr "B. Service")
    (JNum 1) (sweep 1800001 sessions)
  = (Failure 404 "Session not found or expired", sweep 1800001 sessions)
  ∧ generate_report gen 1800002 (JStr "id") (sweep 1800001 sessions)
    = (Failure 404 "Session not found or expired", sweep 1800001 sessions).
Proof.
  intros session sessions gen.
  apply (swept_session_not_found (λ _ _, false) gen 1800001 1800002 "id"
           (JStr "B. Service") (JNum 1) sessions session);
    [done | reflexivity | reflexivity | apply lookup_singleton_eq |].
  simpl. lia.
Defined.

(** ** What the generator is asked and what comes of a blank answer *)

Lemma parse_blank content :
  Blank content →
  parse_question (trim content) = ""
  ∧ parse_options (trim content) = []
  ∧ parse_report (trim content)
    = {| score := JNum 0; topIssues := []; recommendations := [] |}.
Proof. intros ->%trim_empty. by vm_compute. Qed.

Section Generation.

Variable string_ge : string → Z → bool.

Implicit Types (gen : Generator) (now : Z) (sessions : gmap string Session).
Implicit Types (sessionId selectedAnswer questionNumber : JsVal).

(** X9: a generated text of white space only is no error for
    next-question: the call is answered 200 with an empty question and no
    options, the number and the completion flag being what they would be
    for any other text. *)
Theorem blank_generation_gives_empty_question gen now key selectedAnswer
    questionNumber sessions session content :
  key ≠ "" → truthy selectedAnswer = true → truthy questionNumber = true →
  sessions !! key = Some session →
  first_content
    (gen (question_prompt
            (record_answer now selectedAnswer questionNumber session)) 200)
    = Some content →
  Blank content →
  (next_question string_ge gen now (JStr key) selectedAnswer questionNumber
     sessions).1
  = Success (QuestionData
      {| question := ""; options := [];
         questionNumber := js_plus questionNumber 1;
         isComplete := js_ge string_ge questionNumber 5 |}).
Proof.
  intros Hk Ha Hq Hget Hgen Hblank.
  rewrite (next_question_accepted _ _ _ _ _ _ _ _ Hk Ha Hq Hget). simpl.
  unfold question_response. rewrite Hgen.
  by destruct (parse_blank content Hblank) as (-> & -> & _).
Qed.

(** X13: an accepted next-question call consults the generator at one
    point only: the prompt built from the businessType and the answers as
    they are after the new answer has been recorded (so the new entry is the
    last of the "; "-separated answers), with a limit of 200 tokens.  Two
    generators that agree there give the same response and session map. *)
Theorem next_question_consults_generator now key selectedAnswer
    questionNumber sessions session :
  key ≠ "" → truthy selectedAnswer = true → truthy questionNumber = true →
  sessions !! key = Some session →
  let prompt :=
    "Business type: "
    +:+ to_string (if decide (questionNumber = JNum 1) then selectedAnswer
                   else businessType session)
    +:+ ", Previous answers: "
    +:+ join "; " (answers session
                   ++ [answer_entry questionNumber selectedAnswer])
    +:+ ". Generate next revealing question about their operations with 4 options A-D from organized to chaotic." in
  ∀ gen1 gen2,
    gen1 prompt 200 = gen2 prompt 200 →
    next_question string_ge gen1 now (JStr key) selectedAnswer questionNumber
      sessions
    = next_question string_ge gen2 now (JStr key) selectedAnswer
        questionNumber sessions.
Proof.
  intros Hk Ha Hq Hget prompt gen1 gen2 Hagree.
  rewrite !(next_question_accepted _ _ _ _ _ _ _ _ Hk Ha Hq Hget). simpl.
  f_equal. unfold question_response.
  assert (Hprompt : question_prompt
            (record_answer now selectedAnswer questionNumber session) = prompt).
  { unfold question_prompt, record_answer, prompt. simpl.
    rewrite strict_eq_1. by case_bool_decide; case_decide. }
  by rewrite Hprompt, Hagree.
Qed.




End Generation.

(** X10: a generated text of white space only is no error for
    generate-report either: the call is answered 200 with score 0, no issues
    and no recommendations, and the session is deleted all the same. *)
Theorem blank_generation_gives_empty_report (gen : Generator) (now : Z) key
    (sessions : gmap string Session) session content :
  key ≠ "" → sessions !! key = Some session →
  first_content (gen (report_prompt session) 500) = Some content →
  Blank content →
  generate_report gen now (JStr key) sessions
  = (Success (ReportData
       {| score := JNum 0; topIssues := []; recommendations := [] |}),
     delete key sessions).
Proof.
  intros Hk Hget Hgen Hblank.
  rewrite (generate_report_found _ _ _ _ _ Hk Hget). unfold report_outcome.
  rewrite Hgen. by destruct (parse_blank content Hblank) as (_ & _ & ->).
Qed.

Lemma blank_generation_gives_empty_question_witness :
  let session := {| businessType := JNull; answers := [];
                    lastActivity := 0 |} in
  (next_question (λ _ _, false) (λ _ _, ApiResponse [Some "   "]) 7
     (JStr "id") (JStr "B. Service") (JNum 1) {["id" := session]}).1
  = Success (QuestionData
      {| question := ""; options := [];
         questionNumber := js_plus (JNum 1) 1;
         isComplete := js_ge (λ _ _, false) (JNum 1) 5 |}).
Proof.
  intros session.
  apply (blank_generation_gives_empty_question (λ _ _, false)
           (λ _ _, ApiResponse [Some "   "]) 7 "id" (JStr "B. Service")
           (JNum 1) {["id" := session]} session "   ");
    [done | reflexivity | reflexivity | apply lookup_singleton_eq
    | reflexivity | repeat constructor].
Defined.

Lemma blank_generation_gives_empty_report_witness :
  let session := {| businessType := JStr "A"; answers := ["Question 1: A"];
                    lastActivity := 0 |} in
  let sessions : gmap string Session := {["id" := session]} in
  generate_report (λ _ _, ApiResponse [Some " "]) 7 (JStr "id") sessions
  = (Success (ReportData
       {| score := JNum 0; topIssues := []; recommendations := [] |}),
     delete "id" sessions).
Proof.
  intros session sessions.
  apply (blank_generation_gives_empty_report (λ _ _, ApiResponse [Some " "]) 7
           "id" sessions session " ");
    [done | apply lookup_singleton_eq | reflexivity | repeat constructor].
Defined.

Lemma next_question_consults_generator_witness :
  let session := {| businessType := JNull; answers := [];
                    lastActivity := 0 |} in
  let sessions : gmap string Session := {["id" := session]} in
  let gen1 : Generator := λ _ _, ApiResponse [Some "Q"] in
  let gen2 : Generator :=
    λ _ max_tokens, if max_tokens =? 200 then ApiResponse [Some "Q"]
                    else ApiError in
  next_question (λ _ _, false) gen1 7 (JStr "id") (JStr "B. Service") (JNum 1)
    sessions
  = next_question (λ _ _, false) gen2 7 (JStr "id") (JStr "B. Service")
      (JNum 1) sessions.
Proof.
  intros session sessions gen1 gen2.
  apply (next_question_consults_generator (λ _ _, false) 7 "id"
           (JStr "B. Service") (JNum 1) sessions session);
    [done | reflexivity | reflexivity | apply lookup_singleton_eq
    | reflexivity].
Defined.



(** ** Runs of the server *)

Section ServerRuns.

Variable string_ge : string → Z → bool.

Lemma handle_keeps_answers now request (sessions : gmap string Session) key
    session' :
  request ≠ PostStartAssessment key →
  handle string_ge now request sessions !! key = Some session' →
  ∃ session,
    sessions !! key = Some session
    ∧ answers session `prefix_of` answers session'.
Proof.
  intros Hreq. destruct request as [uuid | gen sid ans qn | gen sid |]; simpl.
  - rewrite lookup_insert_ne by congruence. by eauto.
  - rewrite next_question_store.
    destruct (js_not sid || js_not ans || js_not qn); [by eauto |].
    destruct (sessions_get sid sessions) as [[k session]|] eqn:Hget;
      [| by eauto].
    apply sessions_get_Some in Hget as [-> Hget].
    intros [[<- <-] | [Hne H]]%lookup_insert_Some; [| by eauto].
    exists session. split; [done |]. by eexists.
  - rewrite generate_report_store. destruct (js_not sid); [by eauto |].
    destruct (sessions_get sid sessions) as [[k session]|] eqn:Hget;
      [| by eauto].
    apply sessions_get_Some in Hget as [-> Hget].
    destruct (first_content _).
    + intros [Hne H]%lookup_delete_Some. by eauto.
    + intros [[<- <-] | [Hne H]]%lookup_insert_Some; by eauto.
  - rewrite sweep_lookup. destruct (sessions !! key) as [session|]; [| done].
    destruct (expired now session); [done |]. intros [= <-]. by eauto.
Qed.

(** X14: along any sequence of requests and cleanups in which no session is
    started under the id [key], a record found under [key] at the end was
    there at the beginning, and the answers it had then are the first of
    the answers it has at the end, in the same order.  So answers are never
    dropped or reordered, and an id that is not in the session map is in it
    again only if a session is started under it. *)
Theorem answers_only_grow events (sessions : gmap string Session) key
    session' :
  Forall (λ event, event.2 ≠ PostStartAssessment key) events →
  run string_ge events sessions !! key = Some session' →
  ∃ session,
    sessions !! key = Some session
    ∧ answers session `prefix_of` answers session'.
Proof.
  intros Hevents. revert sessions.
  induction Hevents as [| [now request] rest Hreq _ IH]; intros sessions;
    simpl.
  - by eauto.
  - intros (middle & Hmid & Hpre2)%IH.
    destruct (handle_keeps_answers _ _ _ _ _ Hreq Hmid)
      as (session & Hs & Hpre1).
    exists session. split; [done |]. by etrans.
Qed.

End ServerRuns.

Lemma answers_only_grow_witness :
  let session := {| businessType := JStr "A. Retail";
                    answers := ["Question 1: A. Retail"];
                    lastActivity := 0 |} in
  let events :=
    [(5, PostStartAssessment "other");
     (6, PostNextQuestion (λ _ _, ApiError) (JStr "id") (JStr "C. Sometimes")
           (JNum 2));
     (7, CleanupTimer);
     (8, PostGenerateReport (λ _ _, ApiError) (JStr "id"))] in
  ∃ before,
    ({["id" := session]} : gmap string Session) !! "id" = Some before
    ∧ answers before
      `prefix_of` ["Question 1: A. Retail"; "Question 2: C. Sometimes"].
Proof.
  intros session events.
  apply (answers_only_grow (λ _ _, false) events {["id" := session]} "id"
           {| businessType := JStr "A. Retail";
              answers := ["Question 1: A. Retail"; "Question 2: C. Sometimes"];
              lastActivity := 8 |}).
  - repeat constructor; discriminate.
  - vm_compute. reflexivity.
Defined.

(** ** The issues and the recommendations of a report *)

Lemma trim_start_clean s : starts_clean (trim_start s).
Proof.
  induction s as [| c s IH]; simpl; [done |].
  destruct (is_js_space c) eqn:E; done.
Qed.

Lemma trim_start_fixed s : starts_clean s → trim_start s = s.
Proof. destruct s as [| c s]; simpl; [done |]. by intros ->. Qed.

Lemma trim_end_clean s : starts_clean s → starts_clean (trim_end s).
Proof.
  destruct s as [| c s]; simpl; [done |]. intros Hc.
  destruct (trim_end s); [by rewrite Hc | done].
Qed.

Lemma trim_end_idem s : trim_end (trim_end s) = trim_end s.
Proof.
  induction s as [| c s IH]; simpl; [done |].
  destruct (trim_end s) as [| k kept] eqn:E.
  - destruct (is_js_space c) eqn:Ec; simpl; [done | by rewrite Ec].
  - change (trim_end (String c (String k kept)))
      with (match trim_end (String k kept) with
            | "" => if is_js_space c then "" else String c ""
            | kept' => String c kept'
            end).
    by rewrite IH.
Qed.

Lemma trim_idem s : trim (trim s) = trim s.
Proof.
  unfold trim.
  rewrite (trim_start_fixed (trim_end _))
    by apply trim_end_clean, trim_start_clean.
  apply trim_end_idem.
Qed.

Lemma chars_trim_start c s : c ∈ chars (trim_start s) → c ∈ chars s.
Proof.
  induction s as [| x s IH]; simpl; [done |].
  destruct (is_js_space x); [| done].
  intros H. apply list_elem_of_further. by apply IH.
Qed.

Lemma chars_trim_end c s : c ∈ chars (trim_end s) → c ∈ chars s.
Proof.
  induction s as [| x s IH]; simpl; [done |].
  destruct (trim_end s) as [| k kept].
  - destruct (is_js_space x); [by intros ?%elem_of_nil |].
    intros [-> | ?%elem_of_nil]%elem_of_cons; [| done].
    apply list_elem_of_here.
  - intros [-> | H]%elem_of_cons; [apply list_elem_of_here |].
    apply list_elem_of_further. by apply IH.
Qed.

Lemma chars_trim c s : c ∈ chars (trim s) → c ∈ chars s.
Proof. intros H%chars_trim_end. by apply chars_trim_start. Qed.

Lemma trimmed_lines_spec body : TrimmedLines body (trimmed_lines body).
Proof.
  exists (split_lines body), (List.filter non_blank (split_lines body)).
  split; [apply split_lines_Lines |].
  split; [apply Kept_filter, non_blank_iff | done].
Qed.

Lemma trimmed_lines_entry body entry :
  entry ∈ trimmed_lines body →
  entry ≠ "" ∧ trim entry = entry ∧ LF ∉ chars entry.
Proof.
  unfold trimmed_lines.
  intros (line & -> & Hline)%list_elem_of_fmap.
  apply list_elem_of_In, filter_In in Hline as [Hline Hnb].
  split; [| split].
  - unfold non_blank in Hnb. by apply negb_true_iff, String.eqb_neq in Hnb.
  - apply trim_idem.
  - intros HLF%chars_trim.
    destruct (split_lines_Lines body) as (Hfree & _ & _).
    rewrite Forall_forall in Hfree.
    by apply (Hfree line); [apply list_elem_of_In |].
Qed.

(** X15: every entry of topIssues and of recommendations is a non-empty
    string without white space at either end and without a line feed: blank
    lines of the generated text never become entries, and every entry is
    trimmed. *)
Theorem report_entries_are_trimmed aiContent entry :
  entry ∈ topIssues (parse_report aiContent)
    ∨ entry ∈ recommendations (parse_report aiContent) →
  entry ≠ "" ∧ trim entry = entry ∧ LF ∉ chars entry.
Proof.
  simpl. intros [H | H].
  - destruct (issuesMatch aiContent); simpl in H;
      [by eapply trimmed_lines_entry | by apply elem_of_nil in H].
  - destruct (recommendationsMatch aiContent); simpl in H;
      [by eapply trimmed_lines_entry | by apply elem_of_nil in H].
Qed.

Lemma report_entries_are_trimmed_witness :
  "1. Stock is counted by hand" ≠ ""
  ∧ trim "1. Stock is counted by hand" = "1. Stock is counted by hand"
  ∧ LF ∉ chars "1. Stock is counted by hand".
Proof.
  apply (report_entries_are_trimmed
           ("Top 3 operational issues:" +:+ String LF ""
            +:+ "   1. Stock is counted by hand  " +:+ String LF "")).
  left. vm_compute. apply list_elem_of_here.
Defined.

Lemma leftmost_eq {A} (here : string → option A) s :
  leftmost here s =
  match here s with
  | Some found => Some found
  | None => match s with
            | String _ s' => leftmost here s'
            | EmptyString => None
            end
  end.
Proof. by destruct s. Qed.

Lemma issuesMatch_leftmost s : issuesMatch s = leftmost issues_at s.
Proof.
  induction s as [| c s IH]; [done |].
  rewrite leftmost_eq. simpl. by rewrite IH.
Qed.

Lemma recommendationsMatch_leftmost s :
  recommendationsMatch s
  = leftmost (match_ci ("Recommendations:" +:+ String LF "")) s.
Proof.
  induction s as [| c s IH]; [done |].
  rewrite leftmost_eq. simpl. by rewrite IH.
Qed.

Section Leftmost.

Context {A : Type} (here : string → option A) (P : string → Prop).
Hypothesis here_complete : ∀ t, here t ≠ None → P t.

Lemma leftmost_skip pre text :
  nowhere_inside P pre text →
  leftmost here (pre +:+ text) = leftmost here text.
Proof.
  induction pre as [| c pre IH]; intros Hno; [done |].
  rewrite leftmost_eq.
  destruct (here (String c pre +:+ text)) as [found|] eqn:Hat.
  - destruct (Hno "" (String c pre)); [done.. |].
    apply here_complete. by rewrite Hat.
  - rewrite app_cons. apply IH. intros before inside -> Hne.
    by apply (Hno (String c before) inside).
Qed.

Lemma leftmost_nowhere text :
  nowhere P text → leftmost here text = None.
Proof.
  induction text as [| c s IH]; intros Hno; rewrite leftmost_eq.
  - destruct (here "") as [found|] eqn:Hat; [| done].
    destruct (Hno "" ""); [done |]. apply here_complete. by rewrite Hat.
  - destruct (here (String c s)) as [found|] eqn:Hat.
    + destruct (Hno "" (String c s)); [done |].
      apply here_complete. by rewrite Hat.
    + apply IH. intros before rest ->.
      by apply (Hno (String c before) rest).
Qed.

End Leftmost.

Section LeftmostChecks.

Context {A : Type} (here : string → option A) (P : string → Prop).
Hypothesis here_sound : ∀ t, P t → here t ≠ None.

Lemma none_inside_sound pre text :
  none_inside here pre text = true → nowhere_inside P pre text.
Proof.
  induction pre as [| c pre IH]; intros Hcheck before inside Hpre Hne HP.
  - destruct before, inside; done.
  - simpl in Hcheck.
    destruct (here (String c pre +:+ text)) eqn:Hat; [done |].
    destruct before as [| b before].
    + rewrite app_nil_l in Hpre. subst inside. by apply here_sound in HP.
    + rewrite app_cons in Hpre. injection Hpre as <- ->.
      by apply (IH Hcheck before inside).
Qed.

Lemma leftmost_None_nowhere text :
  leftmost here text = None → nowhere P text.
Proof.
  induction text as [| c s IH]; rewrite leftmost_eq;
    destruct (here _) eqn:Hat; try done;
    intros Hrest [| b before] rest Hs HP.
  - rewrite app_nil_l in Hs. subst. by apply here_sound in HP.
  - by rewrite app_cons in Hs.
  - rewrite app_nil_l in Hs. subst. by apply here_sound in HP.
  - rewrite app_cons in Hs. injection Hs as <- ->.
    by apply (IH Hrest before rest).
Qed.

End LeftmostChecks.

Lemma OccursAt_iff pat text : OccursAt pat text ↔ match_ci pat text ≠ None.
Proof.
  split.
  - intros (heading & rest & -> & Hh).
    by rewrite (proj2 (match_ci_Some pat _ rest)) by eauto.
  - destruct (match_ci pat text) as [rest|] eqn:Hm; [| done]. intros _.
    apply match_ci_Some in Hm as (heading & -> & Hh). by exists heading, rest.
Qed.

Lemma to_upper_digit c : is_digit c = true → to_upper c = c.
Proof.
  unfold is_digit, to_upper. rewrite bool_decide_eq_true. intros H.
  rewrite bool_decide_eq_false_2; [done | lia].
Qed.

Lemma ci_equal_space_first title after pat :
  ci_equal title (String " " pat) → ¬ starts_with_digit (title +:+ after).
Proof.
  destruct title as [| c title]; [done |]. intros [Hc _] Hd.
  rewrite app_cons in Hd. simpl in Hd.
  rewrite (to_upper_digit c Hd) in Hc. by subst c.
Qed.

Lemma until_recommendation_eq s :
  until_recommendation s =
  match match_ci (String LF "Recommendation") s with
  | Some _ => ""
  | None => match s with
            | String c s' => String c (until_recommendation s')
            | EmptyString => ""
            end
  end.
Proof. by destruct s. Qed.

Lemma until_recommendation_stops body rest :
  rest = "" ∨ OccursAt (String LF "Recommendation") rest →
  nowhere_inside (OccursAt (String LF "Recommendation")) body rest →
  until_recommendation (body +:+ rest) = body.
Proof.
  intros Hrest. induction body as [| c body IH]; intros Hno.
  - rewrite app_nil_l, until_recommendation_eq.
    destruct (match_ci _ rest) eqn:Hm; [done |].
    destruct Hrest as [-> | Hocc%OccursAt_iff]; done.
  - rewrite until_recommendation_eq.
    destruct (match_ci _ (String c body +:+ rest)) eqn:Hm.
    + destruct (Hno "" (String c body)); [done.. |].
      apply OccursAt_iff. by rewrite Hm.
    + rewrite app_cons. f_equal. apply IH. intros before inside -> Hne.
      by apply (Hno (String c before) inside).
Qed.

Lemma issues_at_heading text after :
  IssuesHeadingAt text after →
  issues_at text = Some (until_recommendation after).
Proof.
  intros (top & ds & title & -> & Htop & Hne & Hds & Htitle).
  unfold issues_at.
  rewrite (proj2 (match_ci_Some "Top " _ (ds +:+ title +:+ after)))
    by eauto.
  cbn [mbind option_bind]. unfold match_digits.
  rewrite (span_digits_complete ds (title +:+ after) Hds)
    by by eapply ci_equal_space_first.
  destruct (String.eqb_spec ds ""); [done |]. cbn [mbind option_bind].
  by rewrite (proj2 (match_ci_Some _ _ after)) by eauto.
Qed.

Lemma issues_at_found text :
  issues_at text ≠ None → ∃ after, IssuesHeadingAt text after.
Proof.
  unfold issues_at.
  destruct (match_ci "Top " text) as [rest1|] eqn:H1; [| done].
  cbn [mbind option_bind].
  apply match_ci_Some in H1 as (top & -> & Htop).
  unfold match_digits.
  destruct (span_digits rest1) as [ds rest2] eqn:Hspan.
  apply span_digits_spec in Hspan as (-> & Hds & _).
  destruct (String.eqb_spec ds ""); [done |]. cbn [mbind option_bind].
  destruct (match_ci _ rest2) as [after|] eqn:H2; [| done]. intros _.
  apply match_ci_Some in H2 as (title & -> & Htitle).
  by exists after, top, ds, title.
Qed.

Lemma topIssues_eq aiContent :
  topIssues (parse_report aiContent)
  = from_option trimmed_lines [] (issuesMatch aiContent).
Proof. reflexivity. Qed.

Lemma recommendations_eq aiContent :
  recommendations (parse_report aiContent)
  = from_option trimmed_lines [] (recommendationsMatch aiContent).
Proof. reflexivity. Qed.

(** X16: the recommendations are the trimmed non-blank lines of everything
    that follows the first "Recommendations:" heading ended by a line feed,
    letters in any case; a text without such a heading has no
    recommendations. *)
Theorem recommendations_after_first_heading :
  (∀ pre heading rest,
     ci_equal heading ("Recommendations:" +:+ String LF "") →
     nowhere_inside (OccursAt ("Recommendations:" +:+ String LF "")) pre
       (heading +:+ rest) →
     TrimmedLines rest
       (recommendations (parse_report (pre +:+ heading +:+ rest))))
  ∧ (∀ aiContent,
       nowhere (OccursAt ("Recommendations:" +:+ String LF "")) aiContent →
       recommendations (parse_report aiContent) = []).
Proof.
  split.
  - intros pre heading rest Hh Hno.
    rewrite recommendations_eq, recommendationsMatch_leftmost.
    rewrite (leftmost_skip (match_ci ("Recommendations:" +:+ String LF ""))
               _ (λ t, proj2 (OccursAt_iff _ t)) _ _ Hno).
    rewrite leftmost_eq, (proj2 (match_ci_Some _ _ rest)) by eauto.
    apply trimmed_lines_spec.
  - intros aiContent Hno.
    rewrite recommendations_eq, recommendationsMatch_leftmost.
    by rewrite (leftmost_nowhere
                  (match_ci ("Recommendations:" +:+ String LF ""))
                  _ (λ t, proj2 (OccursAt_iff _ t)) _ Hno).
Qed.

(** X17: the issues are the trimmed non-blank lines of what follows the
    first heading "Top <digits> operational issues:" ended by a line feed,
    letters in any case, up to the first line feed followed by
    "Recommendation" or, without one, up to the end of the text; a text
    without such a heading has no issues. *)
Theorem issues_after_first_heading :
  (∀ pre text body rest,
     IssuesHeadingAt text (body +:+ rest) →
     nowhere_inside (λ t, ∃ after, IssuesHeadingAt t after) pre text →
     rest = "" ∨ OccursAt (String LF "Recommendation") rest →
     nowhere_inside (OccursAt (String LF "Recommendation")) body rest →
     TrimmedLines body (topIssues (parse_report (pre +:+ text))))
  ∧ (∀ aiContent,
       nowhere (λ t, ∃ after, IssuesHeadingAt t after) aiContent →
       topIssues (parse_report aiContent) = []).
Proof.
  split.
  - intros pre text body rest Hhead Hno Hrest Hbody.
    rewrite topIssues_eq, issuesMatch_leftmost.
    rewrite (leftmost_skip issues_at _ issues_at_found _ _ Hno).
    rewrite leftmost_eq, (issues_at_heading _ _ Hhead).
    rewrite (until_recommendation_stops _ _ Hrest Hbody).
    apply trimmed_lines_spec.
  - intros aiContent Hno. rewrite topIssues_eq, issuesMatch_leftmost.
    by rewrite (leftmost_nowhere issues_at _ issues_at_found _ Hno).
Qed.

Lemma issues_at_sound text :
  (∃ after, IssuesHeadingAt text after) → issues_at text ≠ None.
Proof. intros [after H]. by rewrite (issues_at_heading _ _ H). Qed.

Lemma recommendations_after_first_heading_witness :
  let pre := "Chaos score: 73" +:+ String LF "Top 3 operational issues:"
             +:+ String LF "1. Stock is counted by hand" +:+ String LF "" in
  let heading := "RECOMMENDATIONS:" +:+ String LF "" in
  let rest := " Count stock with a scanner " +:+ String LF ""
              +:+ String LF "Review it weekly" in
  TrimmedLines rest
    (recommendations (parse_report (pre +:+ heading +:+ rest)))
  ∧ recommendations (parse_report "Recommendations: none") = [].
Proof.
  intros pre heading rest.
  destruct recommendations_after_first_heading as [Hfound Hnone]. split.
  - apply Hfound.
    + vm_compute. tauto.
    + apply (none_inside_sound
               (match_ci ("Recommendations:" +:+ String LF "")) _
               (λ t, proj1 (OccursAt_iff _ t))).
      reflexivity.
  - apply Hnone.
    apply (leftmost_None_nowhere
             (match_ci ("Recommendations:" +:+ String LF "")) _
             (λ t, proj1 (OccursAt_iff _ t))).
    reflexivity.
Defined.

Lemma issues_after_first_heading_witness :
  let pre := "Chaos score: 73" +:+ String LF "" in
  let body := " 1. Stock is counted by hand " +:+ String LF ""
              +:+ String LF "2. Orders are taken on paper" in
  let rest := String LF "Recommendations:" +:+ String LF "Use a scanner" in
  let text := "TOP 3 operational issues:" +:+ String LF "" +:+ body +:+ rest in
  TrimmedLines body (topIssues (parse_report (pre +:+ text)))
  ∧ topIssues (parse_report "Top issues: none") = [].
Proof.
  intros pre body rest text.
  destruct issues_after_first_heading as [Hfound Hnone]. split.
  - apply (Hfound pre text body rest).
    + exists "TOP ", "3", (" operational issues:" +:+ String LF "").
      split; [reflexivity |]. split; [vm_compute; tauto |].
      split; [done |]. split; [repeat constructor | vm_compute; tauto].
    + apply (none_inside_sound issues_at _ issues_at_sound). reflexivity.
    + right. exists (String LF "Recommendation"), ("s:" +:+ String LF "Use a scanner").
      split; [reflexivity | vm_compute; tauto].
    + apply (none_inside_sound (match_ci (String LF "Recommendation")) _
               (λ t, proj1 (OccursAt_iff _ t))).
      reflexivity.
  - apply Hnone.
    apply (leftmost_None_nowhere issues_at _ issues_at_sound). reflexivity.
Defined.

(** The entries of the two witnesses above, computed. *)
Example report_sections_computed :
  parse_report
    ("Chaos score: 73" +:+ String LF "TOP 3 operational issues:"
     +:+ String LF " 1. Stock is counted by hand " +:+ String LF ""
     +:+ String LF "2. Orders are taken on paper"
     +:+ String LF "Recommendations:" +:+ String LF "Use a scanner")
  = {| score := JNum 73;
       topIssues := ["1. Stock is counted by hand";
                     "2. Orders are taken on paper"];
       recommendations := ["Use a scanner"] |}.
Proof. vm_compute. reflexivity. Qed.

(** ** After the report *)

(** X18: once a report has been delivered for a session, its id is unknown
    to next-question as well: a call with all its fields present and that id
    is answered 404 and changes nothing. *)
Theorem no_answer_after_report (string_ge : string → Z → bool)
    (gen gen' : Generator) (now now' : Z) key selectedAnswer questionNumber
    (sessions : gmap string Session) session content :
  key ≠ "" → truthy selectedAnswer = true → truthy questionNumber = true →
  sessions !! key = Some session →
  first_content (gen (report_prompt session) 500) = Some content →
  let reported := (generate_report gen now (JStr key) sessions).2 in
  next_question string_ge gen' now' (JStr key) selectedAnswer questionNumber
    reported
  = (Failure 404 "Session not found or expired", reported).
Proof.
  intros Hk Ha Hq Hget Hgen reported.
  apply next_question_unknown; try done; [by apply truthy_JStr |].
  unfold reported. rewrite (generate_report_found _ _ _ _ _ Hk Hget).
  unfold report_outcome. rewrite Hgen. simpl. by rewrite lookup_delete_eq.
Qed.

Lemma no_answer_after_report_witness :
  let session := {| businessType := JStr "A"; answers := ["Question 1: A"];
                    lastActivity := 0 |} in
  let gen : Generator := λ _ _, ApiResponse [Some "Chaos score: 73"] in
  let reported := (generate_report gen 7 (JStr "id") {["id" := session]}).2 in
  next_question (λ _ _, false) gen 8 (JStr "id") (JStr "B. Weekly") (JNum 2)
    reported
  = (Failure 404 "Session not found or expired", reported).
Proof.
  intros session gen.
  apply (no_answer_after_report (λ _ _, false) gen gen 7 8 "id"
           (JStr "B. Weekly") (JNum 2) {["id" := session]} session
           "Chaos score: 73");
    [done | reflexivity | reflexivity | apply lookup_singleton_eq
    | reflexivity].
Defined.
